(** * ReactiveAggregate: a reactive publication of an aggregation result

    A shallow embedding of [ReactiveAggregate] (aggregate.js) and the
    properties of its snapshot differ, debounce scheduler, extras channel,
    option checks and life cycle.

    The JavaScript of the source is embedded as follows.
    - Values are the data the code handles: primitives, arrays and objects
      ([value]).  An object is the list of its own enumerable properties in
      creation order; [own_keys] gives them in the order of [Object.keys]
      (array indices ascending, then the other keys in creation order).
      Values hold no functions: where the source tests or calls a method of
      an object handed to it ([sub.ready], [sub.stop],
      [cursor.observeChanges]), any truthy value of that property stands for
      the method.
    - [sub._ids] is used by the source as a dictionary from property keys to
      iteration stamps; it is an [obj Z].  Its order matters, the sweep goes
      through [Object.keys(sub._ids)].  It is a plain object, so a lookup
      that finds no own property goes on to [Object.prototype]
      ([prototype_members]), and an assignment to [__proto__] stores
      nothing ([store]).
    - A number is given by its decimal numeral, and [String(x)] prints it
      in positional or in exponent notation as the language has it
      ([number_to_string]).
    - The function [update] is [async]: it runs up to its [await], and its
      continuation runs when the aggregation resolves or rejects.  The
      subscription is a transition system ([step]) whose inputs are the
      events of the host: a change signal of an observer, the expiry of a
      timeout, the outcome of a pending aggregation, the stop hook.
    - What the code does to its collaborators is recorded as a list of
      [effect]s: calls of the sink, aggregation requests, observers attached
      and stopped, rejected promises.  The collaborators themselves are taken
      not to throw; [console.log] is left out.
    - The text of a [TypeError] is the engine's; the one used here is that of
      the V8 of the time. *)

From Stdlib Require Import Ascii.
From stdpp Require Import base numbers list strings pretty option.

Set Warnings "-register-all".
Open Scope Z_scope.

(** ** JavaScript values *)

(** Numbers, each given by its decimal numeral: the shortest one that reads
    back as the number, which is the one [String(x)] prints the digits of.
    [Int z] is an integer-valued number, [Dec neg whole frac] a number that
    is not an integer, given by its sign, its integer part and the digits
    after the point (at least one, the last of them not 0). *)
Inductive number :=
| Int (z : Z)
| Dec (neg : bool) (whole : N) (frac : string)
| NaN
| Infinity (neg : bool).

(** The class of an object, as far as [instanceof] tells. *)
Inductive class :=
| Object_
| Collection_.   (* an instance of Mongo.Collection *)

Inductive value :=
| VUndefined
| VNull
| VBool (b : bool)
| VNum (n : number)
| VStr (s : string)
| VArr (items : list value)
| VObj (c : class) (props : list (string * value)).

(** An object as a dictionary: own properties in creation order. *)
Definition obj (A : Type) := list (string * A).

Inductive error :=
| TypeError (msg : string)
| TunguskaReactiveAggregateError (msg : string).

Definition message (e : error) : string :=
  match e with
  | TypeError m => m
  | TunguskaReactiveAggregateError m => m
  end.

(** A computation that returns or throws. *)
Definition exn (A : Type) : Type := error + A.

Definition ret {A} (x : A) : exn A := inr x.
Definition throw {A} (e : error) : exn A := inl e.
Definition bind {A B} (m : exn A) (f : A -> exn B) : exn B :=
  match m with
  | inl e => inl e
  | inr x => f x
  end.

Notation "x <<- m ;; k" := (bind m (fun x => k))
  (at level 100, m at next level, right associativity).

(** *** Objects as dictionaries *)

Section Obj.
Context {A : Type}.

Fixpoint obj_get (o : obj A) (k : string) : option A :=
  match o with
  | [] => None
  | (k', v) :: o' => if decide (k = k') then Some v else obj_get o' k
  end.

(** The own property [k] of [o] is given the value [v]: an existing property
    keeps its place, a new one comes last. *)
Fixpoint obj_set (o : obj A) (k : string) (v : A) : obj A :=
  match o with
  | [] => [(k, v)]
  | (k', v') :: o' =>
      if decide (k = k') then (k, v) :: o' else (k', v') :: obj_set o' k v
  end.

(** [o[k] = v] for a plain object [o]: the own property is written, or
    created.  An assignment to [__proto__], unless the object holds it as an
    own property, goes to the setter that [Object.prototype] has for it, and
    the object gets no property: the setter ignores a primitive value, and
    with an object or [null] it changes the prototype. *)
Definition store (o : obj A) (k : string) (v : A) : obj A :=
  if bool_decide (k = "__proto__" ∧ obj_get o k = None) then o
  else obj_set o k v.

(** [delete o[k]] *)
Fixpoint obj_delete (o : obj A) (k : string) : obj A :=
  match o with
  | [] => []
  | (k', v') :: o' =>
      if decide (k = k') then obj_delete o' k else (k', v') :: obj_delete o' k
  end.
End Obj.

(** *** Array indices and the order of [Object.keys] *)

Definition digit (c : ascii) : option N :=
  let n := Ascii.N_of_ascii c in
  if ((48 <=? n) && (n <=? 57))%N then Some (n - 48)%N else None.

Fixpoint digits (acc : N) (s : string) : option N :=
  match s with
  | EmptyString => Some acc
  | String c r =>
      match digit c with
      | Some d => digits (10 * acc + d)%N r
      | None => None
      end
  end.

(** A property key is an array index when it is the canonical decimal
    numeral of an integer below 2^32 - 1. *)
Definition array_index (k : string) : option N :=
  match k with
  | EmptyString => None
  | String c r =>
      if decide (c = "0"%char ∧ r ≠ EmptyString) then None
      else match digits 0 k with
           | Some n => if (n <? 2 ^ 32 - 1)%N then Some n else None
           | None => None
           end
  end.

Fixpoint insert_index (x : N * string) (l : list (N * string)) : list (N * string) :=
  match l with
  | [] => [x]
  | y :: l' => if (x.1 <=? y.1)%N then x :: l else y :: insert_index x l'
  end.

Definition sort_indices (l : list (N * string)) : list (N * string) :=
  foldr insert_index [] l.

Definition index_keys (ks : list string) : list (N * string) :=
  omap (fun k => match array_index k with Some n => Some (n, k) | None => None end) ks.

Definition name_keys (ks : list string) : list string :=
  List.filter (fun k => bool_decide (array_index k = None)) ks.

(** [Object.keys(o)] *)
Definition own_keys {A} (o : obj A) : list string :=
  (sort_indices (index_keys o.*1)).*2 ++ name_keys o.*1.

(** *** Conversions and tests *)

Fixpoint leading_zeros (s : string) : nat :=
  match s with
  | String "0"%char r => S (leading_zeros r)
  | _ => 0%nat
  end.

Fixpoint strip_leading_zeros (s : string) : string :=
  match s with
  | String "0"%char r => strip_leading_zeros r
  | _ => s
  end.

Fixpoint strip_trailing_zeros (s : string) : string :=
  match s with
  | EmptyString => EmptyString
  | String c r =>
      match strip_trailing_zeros r with
      | EmptyString =>
          if decide (c = "0"%char) then EmptyString else String c EmptyString
      | r' => String c r'
      end
  end.

(** Exponent notation: the significant digits [ds] with the point after the
    first of them, and the power of ten [e] of that first digit. *)
Definition exponent_notation (ds : string) (e : Z) : string :=
  match ds with
  | EmptyString => "0"
  | String d rest =>
      String d (match rest with
                | EmptyString => EmptyString
                | _ => String "." rest
                end)
      +:+ "e" +:+ (if e <? 0 then "-" else "+") +:+ pretty (Z.abs_N e)
  end.

(** [String(x)] for a number: positional notation for a magnitude below
    10^21 and, unless the number is 0, of at least 10^-6; exponent notation
    otherwise. *)
Definition number_to_string (n : number) : string :=
  match n with
  | Int z =>
      if Z.abs z <? 10 ^ 21 then pretty z
      else
        let ds := pretty (Z.abs_N z) in
        (if z <? 0 then "-" else EmptyString)
        +:+ exponent_notation (strip_trailing_zeros ds)
              (Z.of_nat (String.length ds) - 1)
  | Dec neg whole frac =>
      (if neg then "-" else EmptyString)
      +:+ (if (0 <? whole)%N || (leading_zeros frac <? 6)%nat
           then pretty whole +:+ "." +:+ frac
           else exponent_notation (strip_leading_zeros frac)
                  (- Z.of_nat (S (leading_zeros frac))))
  | NaN => "NaN"
  | Infinity neg => if neg then "-Infinity" else "Infinity"
  end.

(** [String(v)], which is also the property key of [o[v]]. *)
Fixpoint to_string (v : value) : string :=
  match v with
  | VUndefined => "undefined"
  | VNull => "null"
  | VBool b => if b then "true" else "false"
  | VNum n => number_to_string n
  | VStr s => s
  | VArr items =>
      String.concat ","
        (map (fun x => match x with
                       | VUndefined | VNull => EmptyString
                       | _ => to_string x
                       end) items)
  | VObj _ _ => "[object Object]"
  end.

Definition truthy (v : value) : bool :=
  match v with
  | VUndefined | VNull => false
  | VBool b => b
  | VNum (Int z) => negb (z =? 0)
  | VNum NaN => false
  | VNum _ => true
  | VStr s => negb (bool_decide (s = EmptyString))
  | VArr _ | VObj _ _ => true
  end.

Inductive jstype := TUndefined | TObject | TBoolean | TNumber | TString.

Definition typeof (v : value) : jstype :=
  match v with
  | VUndefined => TUndefined
  | VNull | VArr _ | VObj _ _ => TObject
  | VBool _ => TBoolean
  | VNum _ => TNumber
  | VStr _ => TString
  end.

Global Instance jstype_eq_dec : EqDecision jstype.
Proof. solve_decision. Defined.

Definition instanceof_Object (v : value) : bool :=
  match v with VArr _ | VObj _ _ => true | _ => false end.
Definition instanceof_Array (v : value) : bool :=
  match v with VArr _ => true | _ => false end.
Definition instanceof_Collection (v : value) : bool :=
  match v with VObj Collection_ _ => true | _ => false end.

(** [s !== v] for a string [s] *)
Definition strict_ne_string (s : string) (v : value) : bool :=
  match v with
  | VStr s' => negb (bool_decide (s = s'))
  | _ => true
  end.

Fixpoint chars (s : string) : list string :=
  match s with
  | EmptyString => []
  | String c r => String c EmptyString :: chars r
  end.

(** [v[k]]: reads an own property; [null] and [undefined] have none.  The
    keys that the source reads this way are fixed names that no prototype
    holds, and the names of own properties; only [docsPropName] could name
    an inherited member, which holds no array either. *)
Definition get (v : value) (k : string) : exn value :=
  match v with
  | VUndefined =>
      throw (TypeError ("Cannot read property '" +:+ k +:+ "' of undefined"))
  | VNull =>
      throw (TypeError ("Cannot read property '" +:+ k +:+ "' of null"))
  | VObj _ props => ret (default VUndefined (obj_get props k))
  | VArr items =>
      if decide (k = "length") then ret (VNum (Int (Z.of_nat (length items))))
      else match array_index k with
           | Some i => ret (default VUndefined (items !! N.to_nat i))
           | None => ret VUndefined
           end
  | VStr s =>
      if decide (k = "length") then ret (VNum (Int (Z.of_nat (String.length s))))
      else match array_index k with
           | Some i => ret (default VUndefined (VStr <$> chars s !! N.to_nat i))
           | None => ret VUndefined
           end
  | VBool _ | VNum _ => ret VUndefined
  end.

(** [Object.keys(v)] *)
Definition index_names (n : nat) : list string :=
  (fun i => pretty (N.of_nat i)) <$> seq 0 n.

Definition object_keys (v : value) : exn (list string) :=
  match v with
  | VUndefined | VNull =>
      throw (TypeError "Cannot convert undefined or null to object")
  | VObj _ props => ret (own_keys props)
  | VArr items => ret (index_names (length items))
  | VStr s => ret (index_names (String.length s))
  | VBool _ | VNum _ => ret []
  end.

(** [parseInt(s, 10)]: an optional sign and the longest prefix of digits;
    [None] is [NaN]. *)
Fixpoint leading_digits (s : string) : string :=
  match s with
  | EmptyString => EmptyString
  | String c r =>
      match digit c with
      | Some _ => String c (leading_digits r)
      | None => EmptyString
      end
  end.

Definition parse_natural (s : string) : option Z :=
  match leading_digits s with
  | EmptyString => None
  | ds => Z.of_N <$> digits 0 ds
  end.

Definition parseInt10 (s : string) : option Z :=
  match s with
  | String "-"%char r => Z.opp <$> parse_natural r
  | String "+"%char r => parse_natural r
  | _ => parse_natural s
  end.

(** [x < 0] and [x > 0] for the result of [parseInt]; [NaN] compares false. *)
Definition lt0 (x : option Z) : bool :=
  match x with Some z => z <? 0 | None => false end.
Definition gt0 (x : option Z) : bool :=
  match x with Some z => 0 <? z | None => false end.
(** [n > x] for an integer counter [n] *)
Definition exceeds (n : Z) (x : option Z) : bool :=
  match x with Some z => z <? n | None => false end.

(** [x++] on a number that holds an integer: exact below 2^53, where the
    successor is no longer representable and [x + 1] rounds back to [x]. *)
Definition incr (x : Z) : Z := if x <? 2 ^ 53 then x + 1 else x.

(** ** The subscription *)

(** [localOptions] once the checks of the constructor have passed: each field
    has the type its check established; [debounceCount] and [debounceDelay]
    hold the result of [parseInt], [None] being [NaN]. *)
Record localOptions := {
  noAutomaticObserver : bool;
  aggregationOptions : value;
  observeSelector : value;
  observeOptions : value;
  observers : list value;
  debounceCount : option Z;
  debounceDelay : option Z;
  clientCollection : string;
  docsPropName : value;
  clientExtrasCollection : value;
}.

(** What the constructor closes over. *)
Record instance := {
  sub : value;
  collection : value;
  pipeline : value;
  opts : localOptions;
}.

(** Calls to the collaborators. *)
Inductive effect :=
| Added (name id fields : value)        (* sub.added *)
| Changed (name id fields : value)      (* sub.changed *)
| Removed (name id : value)             (* sub.removed *)
| Ready                                 (* sub.ready *)
| Aggregate (stages options : value)    (* rawCollection().aggregate().toArray() *)
| Observe (cursor : value)              (* cursor.observeChanges *)
| StopHandle (i : nat)                  (* handles[i].stop *)
| Rejected (e : error).                 (* the promise of [update] is rejected *)

(** The mutable variables of one subscription, and the part of the host that
    they refer to. *)
Record state := {
  initializing : bool;
  ids : obj Z;                  (* sub._ids *)
  iteration : Z;                (* sub._iteration *)
  currentDebounceCount : Z;
  timer : option nat;           (* undefined, or the handle setTimeout returned *)
  armed : list nat;             (* host: timeouts set, neither expired nor cleared *)
  fresh : nat;                  (* host: the next timeout handle *)
  pending : nat;                (* host: calls of update suspended at their await *)
  handles : list bool;          (* host: per observer handle, is it still observing *)
}.

Definition set_initializing (b : bool) (s : state) : state :=
  {| initializing := b; ids := ids s; iteration := iteration s;
     currentDebounceCount := currentDebounceCount s; timer := timer s;
     armed := armed s; fresh := fresh s; pending := pending s;
     handles := handles s |}.
Definition set_ids (o : obj Z) (s : state) : state :=
  {| initializing := initializing s; ids := o; iteration := iteration s;
     currentDebounceCount := currentDebounceCount s; timer := timer s;
     armed := armed s; fresh := fresh s; pending := pending s;
     handles := handles s |}.
Definition set_iteration (i : Z) (s : state) : state :=
  {| initializing := initializing s; ids := ids s; iteration := i;
     currentDebounceCount := currentDebounceCount s; timer := timer s;
     armed := armed s; fresh := fresh s; pending := pending s;
     handles := handles s |}.
Definition set_currentDebounceCount (n : Z) (s : state) : state :=
  {| initializing := initializing s; ids := ids s; iteration := iteration s;
     currentDebounceCount := n; timer := timer s;
     armed := armed s; fresh := fresh s; pending := pending s;
     handles := handles s |}.
Definition set_timer (t : option nat) (s : state) : state :=
  {| initializing := initializing s; ids := ids s; iteration := iteration s;
     currentDebounceCount := currentDebounceCount s; timer := t;
     armed := armed s; fresh := fresh s; pending := pending s;
     handles := handles s |}.
Definition set_armed (l : list nat) (s : state) : state :=
  {| initializing := initializing s; ids := ids s; iteration := iteration s;
     currentDebounceCount := currentDebounceCount s; timer := timer s;
     armed := l; fresh := fresh s; pending := pending s;
     handles := handles s |}.
Definition set_fresh (n : nat) (s : state) : state :=
  {| initializing := initializing s; ids := ids s; iteration := iteration s;
     currentDebounceCount := currentDebounceCount s; timer := timer s;
     armed := armed s; fresh := n; pending := pending s;
     handles := handles s |}.
Definition set_pending (n : nat) (s : state) : state :=
  {| initializing := initializing s; ids := ids s; iteration := iteration s;
     currentDebounceCount := currentDebounceCount s; timer := timer s;
     armed := armed s; fresh := fresh s; pending := n;
     handles := handles s |}.
Definition set_handles (l : list bool) (s : state) : state :=
  {| initializing := initializing s; ids := ids s; iteration := iteration s;
     currentDebounceCount := currentDebounceCount s; timer := timer s;
     armed := armed s; fresh := fresh s; pending := pending s;
     handles := l |}.

(** *** Code that reads and writes the state, calls out and may throw *)

Definition M (A : Type) : Type := state -> state * list effect * exn A.

Definition mret {A} (x : A) : M A := fun s => (s, [], ret x).
Definition mthrow {A} (e : error) : M A := fun s => (s, [], throw e).
Definition mbind {A B} (m : M A) (f : A -> M B) : M B :=
  fun s =>
    match m s with
    | (s1, l1, inr x) => let '(s2, l2, r) := f x s1 in (s2, l1 ++ l2, r)
    | (s1, l1, inl e) => (s1, l1, inl e)
    end.
Definition lift {A} (m : exn A) : M A := fun s => (s, [], m).
Definition emit (e : effect) : M unit := fun s => (s, [e], ret tt).
Definition reads {A} (f : state -> A) : M A := fun s => (s, [], ret (f s)).
Definition modify (f : state -> state) : M unit := fun s => (f s, [], ret tt).

Notation "x <- m ; k" := (mbind m (fun x => k))
  (at level 100, m at next level, right associativity).
Notation "m ;; k" := (mbind m (fun _ => k))
  (at level 100, right associativity).

(** [l.forEach(f)]: stops at the first call that throws. *)
Fixpoint forEach {A} (l : list A) (f : A -> M unit) : M unit :=
  match l with
  | [] => mret tt
  | x :: l' => f x ;; forEach l' f
  end.

(** [try { m } catch (err) { throw new TunguskaReactiveAggregateError(err.message) }] *)
Definition rethrow {A} (m : M A) : M A :=
  fun s =>
    match m s with
    | (s1, l1, inl e) => (s1, l1, inl (TunguskaReactiveAggregateError (message e)))
    | r => r
    end.

(** *** update *)

Section Update.
Variable c : instance.

Definition subscriptionId : value :=
  match get (sub c) "_subscriptionId" with
  | inr v => v
  | inl _ => VUndefined
  end.

Definition client : value := VStr (clientCollection (opts c)).

(** [sub._ids] is a plain object: a key that it does not hold itself is
    looked up in [Object.prototype].  These are the properties found there;
    each holds a function, except [__proto__], an accessor that gives the
    prototype and whose setter ignores a number. *)
Definition prototype_members : list string :=
  ["constructor"; "__defineGetter__"; "__defineSetter__"; "hasOwnProperty";
   "__lookupGetter__"; "__lookupSetter__"; "isPrototypeOf";
   "propertyIsEnumerable"; "toString"; "valueOf"; "__proto__";
   "toLocaleString"].

Definition prototype_member (key : string) : bool :=
  bool_decide (key ∈ prototype_members).

(** [!sub._ids[key]] *)
Definition unknown (o : obj Z) (key : string) : bool :=
  match obj_get o key with
  | Some stamp => stamp =? 0
  | None => negb (prototype_member key)
  end.


(** The body of [docs.forEach] *)
Definition visit (doc : value) : M unit :=
  id <- lift (get doc "_id");
  o <- reads ids;
  (if unknown o (to_string id)
   then emit (Added client id doc)
   else emit (Changed client id doc)) ;;
  i <- reads iteration;
  modify (fun s => set_ids (store (ids s) (to_string id) i) s).

(** The body of [Object.keys(sub._ids).forEach] *)
Definition sweep (id : string) : M unit :=
  o <- reads ids;
  i <- reads iteration;
  if decide (obj_get o id = Some i) then mret tt
  else
    modify (fun s => set_ids (obj_delete (ids s) id) s) ;;
    emit (Removed client (VStr id)).

(** [docs.forEach(...)] for whatever [docs] holds *)
Definition forEach_value (docs : value) (f : value -> M unit) : M unit :=
  match docs with
  | VArr items => forEach items f
  | VUndefined => mthrow (TypeError "Cannot read property 'forEach' of undefined")
  | VNull => mthrow (TypeError "Cannot read property 'forEach' of null")
  | _ => mthrow (TypeError "docs.forEach is not a function")
  end.

(** The two loops of the differ: the documents of the snapshot, then the
    keys of [sub._ids]. *)
Definition reconcile (docs : value) : M unit :=
  forEach_value docs visit ;;
  keys <- reads (fun s => own_keys (ids s));
  forEach keys sweep.

(** The body of [Object.keys(aggregationResult[0]).forEach] *)
Definition collect (first : value) (extras : obj value) (extraPropName : string)
  : exn (obj value) :=
  if strict_ne_string extraPropName (docsPropName (opts c))
  then (v <<- get first extraPropName ;; ret (store extras extraPropName v))
  else ret extras.

Fixpoint collect_all (first : value) (extras : obj value) (names : list string)
  : exn (obj value) :=
  match names with
  | [] => ret extras
  | n :: names' =>
      extras' <<- collect first extras n ;; collect_all first extras' names'
  end.

(** The continuation of [update] after its [await], inside the [try].
    [initializingExtras] is declared here, in [update], and set to [true];
    the assignment [initializingExtras = false] after its test is the last use
    of the variable and is left out, as is [console.log]. *)
Definition diff (aggregationResult : list value) : M unit :=
  let first := default VUndefined (head aggregationResult) in
  let name := docsPropName (opts c) in
  docs <- (if truthy name
           then lift (get first (to_string name))
           else mret (VArr aggregationResult));
  let initializingExtras := true in
  (if truthy name
   then
     names <- lift (object_keys first);
     extras <- lift (collect_all first [] names);
     (if initializingExtras
      then emit (Added (clientExtrasCollection (opts c)) subscriptionId
                   (VObj Object_ extras))
      else emit (Changed (clientExtrasCollection (opts c)) subscriptionId
                   (VObj Object_ extras)))
   else mret tt) ;;
  reconcile docs ;;
  modify (fun s => set_iteration (incr (iteration s)) s).

(** [update], up to the [await]. *)
Definition update : M unit :=
  b <- reads initializing;
  if b then mret tt
  else
    emit (Aggregate (pipeline c) (aggregationOptions (opts c))) ;;
    modify (fun s => set_pending (S (pending s)) s).

(** [update], from the [await] on: the aggregation resolved with [r] or
    failed with [e]. *)
Definition resume (outcome : exn (list value)) : M unit :=
  rethrow (aggregationResult <- lift outcome; diff aggregationResult).

(** *** debounce *)

(** [Meteor.setTimeout(update, delay)] *)
Definition setTimeout : M nat :=
  h <- reads fresh;
  modify (fun s => set_fresh (S h) (set_armed (armed s ++ [h]) s)) ;;
  mret h.

(** [Meteor.clearTimeout(t)] *)
Definition clearTimeout (t : option nat) : M unit :=
  match t with
  | Some h => modify (fun s => set_armed (List.filter (fun h' => negb (h' =? h)%nat) (armed s)) s)
  | None => mret tt
  end.

Definition debounce : M unit :=
  b <- reads initializing;
  if b then mret tt
  else
    t <- reads timer;
    (if negb (bool_decide (is_Some t)) && gt0 (debounceCount (opts c))
     then h <- setTimeout; modify (set_timer (Some h))
     else mret tt) ;;
    modify (fun s => set_currentDebounceCount (incr (currentDebounceCount s)) s) ;;
    n <- reads currentDebounceCount;
    if exceeds n (debounceCount (opts c))
    then
      modify (set_currentDebounceCount 0) ;;
      t' <- reads timer;
      clearTimeout t' ;;
      update
    else mret tt.

(** *** The events of the host *)

Inductive input :=
| Signal (i : nat)                  (* observer i reports added, changed or removed *)
| Timeout (h : nat)                 (* the timeout with handle h expires *)
| Resolve (r : list value)          (* a pending aggregation returns its records *)
| Reject (e : error)                (* a pending aggregation fails *)
| Stop.                             (* the stop hook of the subscription runs *)

(** The callback given to [sub.onStop]. *)
Definition onStop : M unit :=
  hs <- reads handles;
  forEach (seq 0 (length hs)) (fun i => emit (StopHandle i)) ;;
  modify (set_handles (replicate (length hs) false)).

(** A rejected promise of [update] is reported, nothing catches it. *)
Definition settle (m : M unit) : state -> state * list effect :=
  fun s =>
    match m s with
    | (s', l, inr _) => (s', l)
    | (s', l, inl e) => (s', l ++ [Rejected e])
    end.

Definition step (s : state) (i : input) : state * list effect :=
  match i with
  | Signal n =>
      if bool_decide (handles s !! n = Some true) then settle debounce s
      else (s, [])
  | Timeout h =>
      if bool_decide (h ∈ armed s)
      then settle update
             (set_armed (List.filter (fun h' => negb (h' =? h)%nat) (armed s)) s)
      else (s, [])
  | Resolve r =>
      match pending s with
      | O => (s, [])
      | S n => settle (resume (ret r)) (set_pending n s)
      end
  | Reject e =>
      match pending s with
      | O => (s, [])
      | S n => settle (resume (throw e)) (set_pending n s)
      end
  | Stop => settle onStop s
  end.

Fixpoint run (s : state) (inputs : list input) : state * list effect :=
  match inputs with
  | [] => (s, [])
  | i :: inputs' =>
      let '(s1, l1) := step s i in
      let '(s2, l2) := run s1 inputs' in
      (s2, l1 ++ l2)
  end.

End Update.

(** ** The constructor *)

Definition dq : string := String (ascii_of_nat 34) EmptyString.
Definition quoted (s : string) : string := dq +:+ s +:+ dq.

Definition fail {A} (msg : string) : exn A :=
  throw (TunguskaReactiveAggregateError msg).

(** A parameter with a default value takes it when the argument is
    [undefined]. *)
Definition or_default (d v : value) : value :=
  match v with VUndefined => d | _ => v end.

Definition field (o : obj value) (k : string) : value :=
  default VUndefined (obj_get o k).

(** [{...target, ...src}] *)
Fixpoint assign (target : obj value) (src : value) (names : list string)
  : exn (obj value) :=
  match names with
  | [] => ret target
  | n :: names' => v <<- get src n ;; assign (obj_set target n v) src names'
  end.

Definition spread (target : obj value) (src : value) : exn (obj value) :=
  match src with
  | VUndefined | VNull => ret target
  | _ => names <<- object_keys src ;; assign target src names
  end.

Definition defaults (name : value) : obj value :=
  [ ("noAutomaticObserver", VBool false);
    ("aggregationOptions", VObj Object_ []);
    ("observeSelector", VObj Object_ []);
    ("observeOptions", VObj Object_ []);
    ("observers", VArr []);
    ("debounceCount", VNum (Int 0));
    ("debounceDelay", VNum (Int 0));
    ("clientCollection", name);
    ("docsPropName", VUndefined);
    ("clientExtrasCollection", VStr "ReactiveAggregate") ].

(** [cursor._cursorDescription && cursor._cursorDescription.collectionName],
    as the condition it is used for. *)
Definition is_cursor (cursor : value) : exn bool :=
  d <<- get cursor "_cursorDescription" ;;
  n <<- (if truthy d then get d "collectionName" else ret d) ;;
  ret (truthy n).

(** [localOptions.observers.forEach((cursor, i) => ...)] *)
Fixpoint check_cursors (i : nat) (cursors : list value) : exn unit :=
  match cursors with
  | [] => ret tt
  | cursor :: rest =>
      ok <<- is_cursor cursor ;;
      if negb ok
      then fail (quoted ("options.observers[" +:+ pretty (N.of_nat i) +:+ "]")
                 +:+ " must be a cursor")
      else check_cursors (S i) rest
  end.

(** [{...defaults, ...options}], the defaults taking the name of the
    collection. *)
Definition merge (collection options : value) : exn (obj value) :=
  name <<- get collection "_name" ;;
  spread (defaults name) options.

Definition as_bool (v : value) : bool :=
  match v with VBool b => b | _ => false end.
Definition as_items (v : value) : list value :=
  match v with VArr l => l | _ => [] end.
Definition as_string (v : value) : string :=
  match v with VStr s => s | _ => EmptyString end.

(** [parseInt(v, 10)] for a value [v] *)
Definition parseInt (v : value) : option Z := parseInt10 (to_string v).

(** The checks of the constructor, in the order of the source.  They return
    the options the rest of the code works with, or throw. *)
Definition check (sub collection pipeline options : value) : exn localOptions :=
  ready <<- (if truthy sub then get sub "ready" else ret sub) ;;
  stop <<- (if truthy ready then get sub "stop" else ret ready) ;;
  if negb (truthy stop)
  then fail ("unexpected context - did you set " +:+ quoted "sub" +:+ " to "
             +:+ quoted "this" +:+ "?")
  else if negb (instanceof_Collection collection)
  then fail (quoted "collection" +:+ " must be a Mongo.Collection")
  else if negb (instanceof_Array pipeline)
  then fail (quoted "pipeline" +:+ " must be an array")
  else if negb (instanceof_Object options)
  then fail (quoted "options" +:+ " must be an object")
  else
  lo <<- merge collection options ;;
  if negb (bool_decide (typeof (field lo "noAutomaticObserver") = TBoolean))
  then fail (quoted "options.noAutomaticObserver" +:+ " must be true or false")
  else if negb (bool_decide (typeof (field lo "observeSelector") = TObject))
  then fail ("deprecated " +:+ quoted "options.observeSelector"
             +:+ " must be an object")
  else if negb (bool_decide (typeof (field lo "observeOptions") = TObject))
  then fail ("deprecated " +:+ quoted "options.observeOptions"
             +:+ " must be an object")
  else if negb (instanceof_Array (field lo "observers"))
  then fail (quoted "options.observers" +:+ " must be an array of cursors")
  else
  _ <<- check_cursors 0 (as_items (field lo "observers")) ;;
  if negb (bool_decide (typeof (field lo "debounceCount") = TNumber))
  then fail (quoted "options.debounceCount" +:+ " must be a positive integer")
  else
  let count := parseInt (field lo "debounceCount") in
  if lt0 count
  then fail (quoted "options.debounceCount" +:+ " must be a positive integer")
  else if negb (bool_decide (typeof (field lo "debounceDelay") = TNumber))
  then fail (quoted "options.debounceDelay" +:+ " must be a positive integer")
  else
  let delay := parseInt (field lo "debounceDelay") in
  if lt0 delay
  then fail (quoted "options.debounceDelay" +:+ " must be a positive integer")
  else if negb (bool_decide (typeof (field lo "clientCollection") = TString))
  then fail (quoted "options.clientCollection" +:+ " must be a string")
  else
  (* the deprecation warnings only read the keys of the two objects *)
  _ <<- object_keys (field lo "observeSelector") ;;
  _ <<- object_keys (field lo "observeOptions") ;;
  ret {| noAutomaticObserver := as_bool (field lo "noAutomaticObserver");
         aggregationOptions := field lo "aggregationOptions";
         observeSelector := field lo "observeSelector";
         observeOptions := field lo "observeOptions";
         observers := as_items (field lo "observers");
         debounceCount := count;
         debounceDelay := delay;
         clientCollection := as_string (field lo "clientCollection");
         docsPropName := field lo "docsPropName";
         clientExtrasCollection := field lo "clientExtrasCollection" |}.

(** [collection.find(selector, options)]: the cursor of the host, as far as
    the code looks into it. *)
Definition find (collection selector options : value) : value :=
  VObj Object_
    [ ("_cursorDescription",
       VObj Object_
         [ ("collectionName",
            match get collection "_name" with inr n => n | inl _ => VUndefined end);
           ("selector", selector);
           ("options", options) ]);
      ("observeChanges", VBool true) ].

(** [localOptions] after [observers.push(cursor)] *)
Definition with_observers (l : list value) (lo : localOptions) : localOptions :=
  {| noAutomaticObserver := noAutomaticObserver lo;
     aggregationOptions := aggregationOptions lo;
     observeSelector := observeSelector lo;
     observeOptions := observeOptions lo;
     observers := l;
     debounceCount := debounceCount lo;
     debounceDelay := debounceDelay lo;
     clientCollection := clientCollection lo;
     docsPropName := docsPropName lo;
     clientExtrasCollection := clientExtrasCollection lo |}.

Definition automatic (collection : value) (lo : localOptions) : localOptions :=
  if noAutomaticObserver lo then lo
  else with_observers
         (observers lo ++ [find collection (observeSelector lo) (observeOptions lo)])
         lo.

(** Before the constructor has assigned anything. *)
Definition blank : state :=
  {| initializing := true; ids := []; iteration := 0;
     currentDebounceCount := 0; timer := None;
     armed := []; fresh := 0; pending := 0; handles := [] |}.


(** [handles.push(cursor.observeChanges({...}))]: the method has to be
    there, a truthy value standing for it; the host then reports the
    documents the cursor already holds, [n] of them, by calling [added]
    before [observeChanges] returns. *)
Definition observe (c : instance) (cursor : value) (n : nat) : M unit :=
  method <- lift (get cursor "observeChanges");
  (if truthy method then mret tt
   else mthrow (TypeError "cursor.observeChanges is not a function")) ;;
  emit (Observe cursor) ;;
  forEach (replicate n tt) (fun _ => debounce c) ;;
  modify (fun s => set_handles (handles s ++ [true]) s).

Fixpoint observe_all (c : instance) (cursors : list value) (initial : list nat)
  : M unit :=
  match cursors with
  | [] => mret tt
  | cursor :: rest =>
      observe c cursor (hd 0%nat initial) ;; observe_all c rest (tl initial)
  end.

(** The constructor from [let initializing = true] on. *)
Definition wire (c : instance) (initial : list nat) : M unit :=
  modify (set_initializing true) ;;
  modify (set_ids []) ;;
  modify (set_iteration 1) ;;
  modify (set_currentDebounceCount 0) ;;
  observe_all c (observers (opts c)) initial ;;
  modify (set_initializing false) ;;
  update c ;;
  emit Ready.

(** [ReactiveAggregate(sub, collection, pipeline, options)].  [initial] gives,
    per observer, the number of documents its cursor holds at that time.  The
    constructor throws what a check throws, or what [observeChanges] throws
    when the observers are attached. *)
Definition ReactiveAggregate (sub collection pipeline options : value)
    (initial : list nat) : exn (instance * state * list effect) :=
  let collection := or_default VNull collection in
  let pipeline := or_default (VArr []) pipeline in
  let options := or_default (VObj Object_ []) options in
  lo <<- check sub collection pipeline options ;;
  let c := {| sub := sub; collection := collection; pipeline := pipeline;
              opts := automatic collection lo |} in
  match wire c initial blank with
  | (s, l, inr _) => ret (c, s, l)
  | (_, _, inl e) => throw e
  end.

(** * Notions for the statements *)

(** ** The differ, loop by loop *)

(** A record is a value with properties to read: anything but [null] and
    [undefined]. *)
Definition is_record (doc : value) : bool :=
  match doc with VUndefined | VNull => false | _ => true end.

(** [doc._id] and the key under which [sub._ids] files it. *)
Definition id_of (doc : value) : value :=
  match get doc "_id" with inr v => v | inl _ => VUndefined end.
Definition key_of (doc : value) : string := to_string (id_of doc).


(** The keys that an assignment stores in a plain object: every key but
    [__proto__], which is only written where the object holds it already. *)
Definition storable {A} (o : obj A) (k : string) : Prop :=
  k ≠ "__proto__" \/ k ∈ o.*1.

(** The effect of visiting one document, and the dictionary afterwards. *)
Definition visit_effect (c : instance) (o : obj Z) (doc : value) : effect :=
  if unknown o (key_of doc)
  then Added (client c) (id_of doc) doc
  else Changed (client c) (id_of doc) doc.

Fixpoint stamp (o : obj Z) (i : Z) (docs : list value) : obj Z :=
  match docs with
  | [] => o
  | doc :: docs' => stamp (store o (key_of doc) i) i docs'
  end.

Fixpoint visit_effects (c : instance) (o : obj Z) (i : Z) (docs : list value)
  : list effect :=
  match docs with
  | [] => []
  | doc :: docs' =>
      visit_effect c o doc :: visit_effects c (store o (key_of doc) i) i docs'
  end.

(** The sweep: which keys it removes, and what is left. *)
Fixpoint stale (o : obj Z) (i : Z) (keys : list string) : list string :=
  match keys with
  | [] => []
  | k :: keys' =>
      if decide (obj_get o k = Some i) then stale o i keys'
      else k :: stale (obj_delete o k) i keys'
  end.

Fixpoint swept (o : obj Z) (i : Z) (keys : list string) : obj Z :=
  match keys with
  | [] => o
  | k :: keys' =>
      if decide (obj_get o k = Some i) then swept o i keys'
      else swept (obj_delete o k) i keys'
  end.

(** ** Well-formed states and the kinds of effects *)

(** [sub._ids] holds each key once, the counter is positive and no stamp
    is ahead of it. *)
Definition wf (s : state) : Prop :=
  NoDup (ids s).*1 /\ 1 <= iteration s /\
  Forall (fun p => 1 <= p.2 <= iteration s) (ids s).

Global Instance wf_dec s : Decision (wf s).
Proof. unfold wf. apply _. Defined.

(** The calls of the sink that concern documents. *)
Definition doc_event (c : instance) (e : effect) : Prop :=
  match e with
  | Added n _ _ | Changed n _ _ | Removed n _ => n = client c
  | _ => False
  end.

(** Any call of the sink. *)
Definition sink (e : effect) : bool :=
  match e with
  | Added _ _ _ | Changed _ _ _ | Removed _ _ | Ready => true
  | _ => false
  end.

(** ** The parts of a recompute *)

(** The first record of the aggregation result, the documents of the
    snapshot, the extras built from the first record and their event. *)
Definition first_record (r : list value) : value := default VUndefined (head r).

Definition snapshot (c : instance) (r : list value) : exn value :=
  if truthy (docsPropName (opts c))
  then get (first_record r) (to_string (docsPropName (opts c)))
  else ret (VArr r).

Definition extras_of (c : instance) (first : value) : obj value :=
  match object_keys first with
  | inr names =>
      match collect_all c first [] names with
      | inr extras => extras
      | inl _ => []
      end
  | inl _ => []
  end.

Definition extras_event (c : instance) (first : value) : effect :=
  Added (clientExtrasCollection (opts c)) (subscriptionId c)
    (VObj Object_ (extras_of c first)).

Definition extras_events (c : instance) (r : list value) : list effect :=
  if truthy (docsPropName (opts c)) then [extras_event c (first_record r)] else [].

(** ** The state after construction and three subscriptions to work with *)

(** The state in which the constructor leaves a subscription with [n]
    observers. *)
Definition started (n : nat) : state :=
  {| initializing := false; ids := []; iteration := 1;
     currentDebounceCount := 0; timer := None;
     armed := []; fresh := 0; pending := 1; handles := replicate n true |}.

Definition a_sub : value :=
  VObj Object_
    [("ready", VBool true); ("stop", VBool true); ("_subscriptionId", VStr "s1")].

Definition posts : value := VObj Collection_ [("_name", VStr "posts")].

Definition post (id v : Z) : value :=
  VObj Object_ [("_id", VNum (Int id)); ("v", VNum (Int v))].

Definition option_ (k : string) (v : value) : value := VObj Object_ [(k, v)].

(** The instance the constructor returns for [options], with the default
    pipeline and no documents in the observed cursor. *)
Definition construct (options : value) : instance :=
  match ReactiveAggregate a_sub posts VUndefined options [] with
  | inr (c, _, _) => c
  | inl _ =>
      {| sub := VUndefined; collection := VUndefined; pipeline := VUndefined;
         opts := {| noAutomaticObserver := false; aggregationOptions := VUndefined;
                    observeSelector := VUndefined; observeOptions := VUndefined;
                    observers := []; debounceCount := None; debounceDelay := None;
                    clientCollection := EmptyString; docsPropName := VUndefined;
                    clientExtrasCollection := VUndefined |} |}
  end.

(** All defaults; a count threshold of 2; documents under [items]. *)
Definition plain : instance := construct VUndefined.
Definition batched : instance :=
  construct (VObj Object_ [("debounceCount", VNum (Int 2));
                           ("debounceDelay", VNum (Int 100))]).
Definition faceted : instance := construct (option_ "docsPropName" (VStr "items")).

Definition facet (docs : list value) (total : Z) : value :=
  VObj Object_ [("items", VArr docs); ("total", VNum (Int total))].

(** ** Statements of the specification that the code does not meet *)



(** C8, as the specification has it: the counter is incremented before the
    records are processed, so a recompute stamps its records with the
    successor of the value it found. *)
Definition increments_first (c : instance) (s : state) (r : list value) : Prop :=
  forall k v,
    obj_get (ids (step c s (Resolve r)).1) k = Some v -> v = iteration s + 1.

(** C7, as the specification has it: once the stop hook has run, whatever
    was scheduled does nothing to the sink or to [sub._ids]. *)
Definition stop_cancels (c : instance) (s : state) : Prop :=
  forall inputs,
    let s1 := (step c s Stop).1 in
    let '(s2, l) := run c s1 inputs in
    ids s2 = ids s1 /\ Forall (fun e => sink e = false) l.

(** ** Configurations *)

(** [v[k]] is there and truthy. *)
Definition has (v : value) (k : string) : bool :=
  match get v k with inr x => truthy x | inl _ => false end.

(** [cursor.observeChanges] can be called. *)
Definition observable (cursor : value) : bool := has cursor "observeChanges".




(** ** Further notions: settled states, the scheduler, accepted options *)

(** No stamp of [sub._ids] is the counter: every key is due for removal
    unless the next snapshot holds it.  This is so after the constructor and
    after every recompute that completed (below 2^53). *)
Definition settled (s : state) : Prop :=
  Forall (fun p => p.2 ≠ iteration s) (ids s).

(** The first statement of [debounce] on a state, and the
    [Meteor.clearTimeout(timer)] of its last branch. *)
Definition arm (c : instance) (s : state) : state :=
  if negb (bool_decide (is_Some (timer s))) && gt0 (debounceCount (opts c))
  then set_timer (Some (fresh s))
         (set_fresh (S (fresh s)) (set_armed (armed s ++ [fresh s]) s))
  else s.

Definition disarm (s : state) : state :=
  match timer s with
  | Some h => set_armed (List.filter (fun h' => negb (h' =? h)%nat) (armed s)) s
  | None => s
  end.

(** Every armed timeout is the one [timer] refers to. *)
Definition timer_tracked (s : state) : Prop :=
  forall h, h ∈ armed s -> timer s = Some h.

(** [setTimeout] has been called at most once, and what is armed is that
    one timeout. *)
Definition one_timeout (s : state) : Prop :=
  (timer s = None /\ fresh s = 0%nat /\ armed s = [])
  \/ (timer s = Some 0%nat /\ fresh s = 1%nat /\ (armed s = [] \/ armed s = [0%nat])).

(** Nothing is left that could start a recompute. *)
Definition quiet (s : state) : Prop :=
  Forall (fun b => b = false) (handles s) /\ armed s = [] /\ pending s = 0%nat.

(** The options the constructor works with, read off the merged ones. *)
Definition options_of (lo : obj value) : localOptions :=
  {| noAutomaticObserver := as_bool (field lo "noAutomaticObserver");
     aggregationOptions := field lo "aggregationOptions";
     observeSelector := field lo "observeSelector";
     observeOptions := field lo "observeOptions";
     observers := as_items (field lo "observers");
     debounceCount := parseInt (field lo "debounceCount");
     debounceDelay := parseInt (field lo "debounceDelay");
     clientCollection := as_string (field lo "clientCollection");
     docsPropName := field lo "docsPropName";
     clientExtrasCollection := field lo "clientExtrasCollection" |}.

(** What every check of the constructor asks for, [lo] being the merged
    options. *)
Definition valid (sub collection pipeline options : value) (lo : obj value) : Prop :=
  truthy sub = true /\ has sub "ready" = true /\ has sub "stop" = true
  /\ instanceof_Collection collection = true
  /\ instanceof_Array pipeline = true
  /\ instanceof_Object options = true
  /\ merge collection options = inr lo
  /\ typeof (field lo "noAutomaticObserver") = TBoolean
  /\ typeof (field lo "observeSelector") = TObject
  /\ typeof (field lo "observeOptions") = TObject
  /\ instanceof_Array (field lo "observers") = true
  /\ Forall (fun cursor => is_cursor cursor = inr true) (as_items (field lo "observers"))
  /\ typeof (field lo "debounceCount") = TNumber
  /\ lt0 (parseInt (field lo "debounceCount")) = false
  /\ typeof (field lo "debounceDelay") = TNumber
  /\ lt0 (parseInt (field lo "debounceDelay")) = false
  /\ typeof (field lo "clientCollection") = TString
  /\ field lo "observeSelector" ≠ VNull
  /\ field lo "observeOptions" ≠ VNull.


(** The integer part of a number; [None] is [NaN]. *)
Definition integer_part (n : number) : option Z :=
  match n with
  | Int z => Some z
  | Dec neg whole _ => Some (if neg then - Z.of_N whole else Z.of_N whole)
  | NaN | Infinity _ => None
  end.

(** [String(x)] prints [x] without an exponent: its magnitude is below 10^21
    and, unless it is 0, at least 10^-6. *)
Definition fixed_notation (n : number) : bool :=
  match n with
  | Int z => Z.abs z <? 10 ^ 21
  | Dec _ whole frac =>
      (whole <? 10 ^ 21)%N && ((0 <? whole)%N || (leading_zeros frac <? 6)%nat)
  | NaN | Infinity _ => true
  end.

(** The effects that only the constructor has. *)
Definition of_constructor (e : effect) : Prop :=
  match e with
  | Ready | Observe _ => True
  | _ => False
  end.

(** * Properties *)

(** ** Dictionaries *)

Section ObjFacts.
Context {A : Type}.
Implicit Types (o : obj A) (k : string) (v : A).

Lemma obj_get_None o k : obj_get o k = None <-> k ∉ o.*1.
Proof.
  induction o as [|[k' v'] o IH]; simpl.
  - split; [intros _; apply not_elem_of_nil | done].
  - rewrite not_elem_of_cons. destruct (decide (k = k')); split; try done.
    + intros [? _]; done.
    + intros H; split; [done | by apply IH].
    + intros [_ H]; by apply IH.
Qed.

Lemma obj_get_Some_elem o k v : obj_get o k = Some v -> k ∈ o.*1.
Proof.
  intros H. destruct (decide (k ∈ o.*1)) as [|Hn]; [done|].
  apply obj_get_None in Hn. congruence.
Qed.

Lemma obj_get_is_Some o k : is_Some (obj_get o k) <-> k ∈ o.*1.
Proof.
  split.
  - intros [v Hv]. by eapply obj_get_Some_elem.
  - intros Hin. destruct (obj_get o k) eqn:E; [by eexists|].
    apply obj_get_None in E. done.
Qed.

Lemma obj_get_elem o k v : obj_get o k = Some v -> (k, v) ∈ o.
Proof.
  induction o as [|[k' v'] o IH]; simpl; [done|].
  destruct (decide (k = k')) as [->|].
  - intros [= ->]. apply list_elem_of_here.
  - intros H. apply list_elem_of_further. auto.
Qed.

Lemma obj_get_set o k v k' :
  obj_get (obj_set o k v) k' = if decide (k' = k) then Some v else obj_get o k'.
Proof.
  induction o as [|[k0 v0] o IH]; simpl.
  - destruct (decide (k' = k)); done.
  - destruct (decide (k = k0)) as [->|Hne]; simpl.
    + destruct (decide (k' = k0)); done.
    + destruct (decide (k' = k0)) as [->|].
      * destruct (decide (k0 = k)); [congruence | done].
      * apply IH.
Qed.

Lemma obj_get_delete o k k' :
  obj_get (obj_delete o k) k' = if decide (k' = k) then None else obj_get o k'.
Proof.
  induction o as [|[k0 v0] o IH]; simpl.
  - destruct (decide (k' = k)); done.
  - destruct (decide (k = k0)) as [->|Hne]; simpl.
    + rewrite IH. destruct (decide (k' = k0)); done.
    + destruct (decide (k' = k0)) as [->|].
      * destruct (decide (k0 = k)); [congruence | done].
      * apply IH.
Qed.

Lemma obj_set_keys o k v :
  (obj_set o k v).*1 = if decide (k ∈ o.*1) then o.*1 else o.*1 ++ [k].
Proof.
  induction o as [|[k0 v0] o IH]; csimpl.
  - done.
  - destruct (decide (k = k0)) as [->|Hne]; csimpl.
    + rewrite decide_True; [done | apply list_elem_of_here].
    + rewrite IH. destruct (decide (k ∈ o.*1)) as [Hin|Hin].
      * rewrite decide_True; [done | by apply list_elem_of_further].
      * rewrite decide_False; [done|]. rewrite elem_of_cons. naive_solver.
Qed.

Lemma obj_set_NoDup o k v : NoDup o.*1 -> NoDup (obj_set o k v).*1.
Proof.
  intros H. rewrite obj_set_keys. destruct (decide (k ∈ o.*1)); [done|].
  apply list.NoDup_app. split_and!; [done | | apply NoDup_singleton].
  intros x Hx Hx'. apply list_elem_of_singleton in Hx' as ->. done.
Qed.

Lemma obj_delete_elem o k p : p ∈ obj_delete o k <-> p ∈ o ∧ p.1 ≠ k.
Proof.
  induction o as [|[k0 v0] o IH]; simpl.
  - rewrite elem_of_nil. naive_solver.
  - destruct (decide (k = k0)) as [->|Hne].
    + rewrite IH, elem_of_cons. split; [naive_solver|].
      intros [[->|?] ?]; [done | naive_solver].
    + rewrite !elem_of_cons, IH. split; [|naive_solver].
      intros [->|?]; [|naive_solver]. split; [by left | simpl; congruence].
Qed.

Lemma obj_delete_NoDup o k : NoDup o.*1 -> NoDup (obj_delete o k).*1.
Proof.
  induction o as [|[k0 v0] o IH]; csimpl; [done|].
  rewrite list.NoDup_cons. intros [Hn Hd].
  destruct (decide (k = k0)); [auto|]. csimpl. apply list.NoDup_cons. split; [|auto].
  intros Hin. apply Hn. apply list_elem_of_fmap in Hin as [p [-> Hp]].
  apply obj_delete_elem in Hp as [Hp _]. apply list_elem_of_fmap. eauto.
Qed.

Lemma obj_set_elem o k v p : p ∈ obj_set o k v -> p = (k, v) ∨ p ∈ o.
Proof.
  induction o as [|[k0 v0] o IH]; simpl.
  - rewrite list_elem_of_singleton. auto.
  - destruct (decide (k = k0)); rewrite !elem_of_cons; naive_solver.
Qed.
End ObjFacts.

(** [Object.keys({b: 1, 10: 2, a: 3, 2: 4, "01": 5})] *)
Example own_keys_order :
  own_keys [("b", 1); ("10", 2); ("a", 3); ("2", 4); ("01", 5)]
  = ["2"; "10"; "b"; "a"; "01"].
Proof. reflexivity. Qed.

(** [Object.keys] lists every own key once. *)
Lemma insert_index_perm x l : insert_index x l ≡ₚ x :: l.
Proof.
  induction l as [|y l IH]; simpl; [done|].
  destruct (x.1 <=? y.1)%N; [done|]. rewrite IH. apply Permutation_swap.
Qed.

Lemma sort_indices_perm l : sort_indices l ≡ₚ l.
Proof.
  induction l as [|x l IH]; simpl; [done|].
  rewrite insert_index_perm. by f_equiv.
Qed.

Lemma split_keys_perm (ks : list string) :
  (index_keys ks).*2 ++ name_keys ks ≡ₚ ks.
Proof.
  induction ks as [|k ks IH]; simpl; [done|].
  unfold index_keys, name_keys in *. simpl.
  destruct (array_index k) eqn:E; simpl.
  - by f_equiv.
  - rewrite <- Permutation_middle. by f_equiv.
Qed.

Lemma own_keys_perm {A} (o : obj A) : own_keys o ≡ₚ o.*1.
Proof.
  unfold own_keys. rewrite sort_indices_perm. apply split_keys_perm.
Qed.

Lemma own_keys_elem {A} (o : obj A) k : k ∈ own_keys o <-> k ∈ o.*1.
Proof. by rewrite own_keys_perm. Qed.

Lemma own_keys_NoDup {A} (o : obj A) : NoDup o.*1 -> NoDup (own_keys o).
Proof. by rewrite own_keys_perm. Qed.

(** ** Assignments to a plain object *)

Section StoreFacts.
Context {A : Type}.
Implicit Types (o : obj A) (k : string) (v : A).

Lemma store_storable o k v : storable o k -> store o k v = obj_set o k v.
Proof.
  intros H. unfold store. rewrite bool_decide_eq_false_2; [done|].
  intros [-> Hn]. apply obj_get_None in Hn. by destruct H.
Qed.

Lemma store_not_storable o k v : ¬ storable o k -> store o k v = o.
Proof.
  intros H. unfold store. rewrite bool_decide_eq_true_2; [done|].
  split.
  - destruct (decide (k = "__proto__")); [done|]. destruct H. by left.
  - apply obj_get_None. intros Hin. destruct H. by right.
Qed.

Lemma store_get o k v k' :
  obj_get (store o k v) k' =
    if decide (k' = k ∧ storable o k) then Some v else obj_get o k'.
Proof.
  destruct (decide (storable o k)) as [Hs|Hs].
  - rewrite store_storable, obj_get_set by done.
    destruct (decide (k' = k)) as [->|Hne].
    + by rewrite decide_True.
    + rewrite decide_False; [done | by intros [? _]].
  - rewrite store_not_storable by done.
    rewrite decide_False; [done | by intros [_ ?]].
Qed.

Lemma store_NoDup o k v : NoDup o.*1 -> NoDup (store o k v).*1.
Proof. unfold store. destruct (bool_decide _); [done | apply obj_set_NoDup]. Qed.

Lemma store_elem o k v p : p ∈ store o k v -> p = (k, v) ∨ p ∈ o.
Proof. unfold store. destruct (bool_decide _); [by right | apply obj_set_elem]. Qed.

Lemma store_keys o k v k' : k' ∈ (store o k v).*1 <-> (k' = k ∧ storable o k) ∨ k' ∈ o.*1.
Proof.
  rewrite <- !obj_get_is_Some, store_get.
  destruct (decide (k' = k ∧ storable o k)) as [H|H].
  - split; [by left | by eexists].
  - split; [by right | by intros [?|?]].
Qed.

Lemma storable_store o k v k' : storable (store o k v) k' <-> storable o k'.
Proof.
  split.
  - intros [?|[[-> H]|?]%store_keys]; [by left | done | by right].
  - intros [?|?]; [by left | right]. apply store_keys. by right.
Qed.

Lemma storable_own o k : k ∈ o.*1 -> storable o k.
Proof. by right. Qed.


End StoreFacts.

(** ** The two loops of the differ *)

Lemma get_record doc k : is_record doc = true -> exists v, get doc k = inr v.
Proof.
  destruct doc; try done; simpl; eauto;
    destruct (decide _); eauto; destruct (array_index k); eauto.
Qed.

Lemma get_id_record doc : is_record doc = true -> get doc "_id" = inr (id_of doc).
Proof.
  intros H. destruct (get_record doc "_id" H) as [v Hv].
  unfold id_of. by rewrite Hv.
Qed.

(** The key of an identity that is a string is that string. *)
Lemma key_of_string doc id : get doc "_id" = inr (VStr id) -> key_of doc = id.
Proof. intros H. unfold key_of, id_of. by rewrite H. Qed.

Lemma get_not_record doc k : is_record doc = false -> exists e, get doc k = inl e.
Proof. destruct doc; try done; simpl; eauto. Qed.

Lemma set_ids_same s : set_ids (ids s) s = s.
Proof. by destruct s. Qed.

Lemma visit_record c doc s :
  is_record doc = true ->
  visit c doc s =
    (set_ids (store (ids s) (key_of doc) (iteration s)) s,
     [visit_effect c (ids s) doc], inr tt).
Proof.
  intros H. unfold visit, mbind, lift, reads, modify, emit, visit_effect, key_of.
  rewrite (get_id_record _ H). unfold ret. simpl.
  destruct (unknown (ids s) (to_string (id_of doc))); done.
Qed.

Lemma visit_not_record c doc s :
  is_record doc = false -> exists e, visit c doc s = (s, [], inl e).
Proof.
  intros H. destruct (get_not_record doc "_id" H) as [e He].
  exists e. unfold visit, mbind, lift. by rewrite He.
Qed.

Lemma forEach_visit_records c docs s :
  forallb is_record docs = true ->
  forEach docs (visit c) s =
    (set_ids (stamp (ids s) (iteration s) docs) s,
     visit_effects c (ids s) (iteration s) docs, inr tt).
Proof.
  revert s. induction docs as [|doc docs IH]; intros s; simpl.
  - intros _. unfold mret. by rewrite set_ids_same.
  - intros [Hd Hds]%andb_prop. unfold mbind at 1.
    rewrite (visit_record _ _ _ Hd), (IH _ Hds). done.
Qed.

(** In general the loop stops at the first element that is not a record. *)
Lemma forEach_visit_prefix c docs s :
  exists n res,
    forEach docs (visit c) s =
      (set_ids (stamp (ids s) (iteration s) (take n docs)) s,
       visit_effects c (ids s) (iteration s) (take n docs), res)
    /\ forallb is_record (take n docs) = true
    /\ (res = inr tt -> n = length docs).
Proof.
  revert s. induction docs as [|doc docs IH]; intros s; simpl.
  - exists 0%nat, (inr tt). simpl. unfold mret. by rewrite set_ids_same.
  - destruct (is_record doc) eqn:Hd.
    + destruct (IH (set_ids (store (ids s) (key_of doc) (iteration s)) s))
        as (n & res & Hrun & Hrec & Hlen).
      exists (S n), res. unfold mbind at 1.
      rewrite (visit_record _ _ _ Hd), Hrun. simpl. rewrite Hd, Hrec.
      split_and!; [by destruct res | done | intros; f_equal; auto].
    + destruct (visit_not_record c doc s Hd) as [e He].
      exists 0%nat, (inl e). unfold mbind at 1. rewrite He. simpl.
      rewrite set_ids_same. done.
Qed.

Lemma sweep_run c k s :
  sweep c k s =
    if decide (obj_get (ids s) k = Some (iteration s)) then (s, [], inr tt)
    else (set_ids (obj_delete (ids s) k) s, [Removed (client c) (VStr k)], inr tt).
Proof.
  unfold sweep, mbind, reads, modify, emit, mret, ret. simpl.
  destruct (decide _); done.
Qed.

Lemma forEach_sweep c keys s :
  forEach keys (sweep c) s =
    (set_ids (swept (ids s) (iteration s) keys) s,
     (fun k => Removed (client c) (VStr k)) <$> stale (ids s) (iteration s) keys,
     inr tt).
Proof.
  revert s. induction keys as [|k keys IH]; intros s; simpl.
  - unfold mret. by rewrite set_ids_same.
  - unfold mbind at 1. rewrite sweep_run.
    destruct (decide (obj_get (ids s) k = Some (iteration s)));
      rewrite IH; done.
Qed.

Lemma filter_ext_elem {B} (P Q : B -> Prop)
    `{!forall x, Decision (P x)} `{!forall x, Decision (Q x)} (l : list B) :
  (forall x, x ∈ l -> P x <-> Q x) -> filter P l = filter Q l.
Proof.
  induction l as [|x l IH]; intros Hext; [done|].
  rewrite !filter_cons.
  rewrite IH by (intros y Hy; apply Hext; by apply list_elem_of_further).
  pose proof (Hext x (list_elem_of_here _ _)) as Hx.
  destruct (decide (P x)), (decide (Q x)); naive_solver.
Qed.

Lemma stale_filter o i keys :
  NoDup keys ->
  stale o i keys = filter (fun k => obj_get o k ≠ Some i) keys.
Proof.
  revert o. induction keys as [|k keys IH]; intros o; [done|].
  rewrite list.NoDup_cons. intros [Hk Hnd]. simpl.
  destruct (decide (obj_get o k = Some i)) as [E|E].
  - rewrite filter_cons_False by naive_solver. auto.
  - rewrite filter_cons_True by done. f_equal. rewrite IH by done.
    apply filter_ext_elem. intros k' Hk'.
    rewrite obj_get_delete. destruct (decide (k' = k)) as [->|]; done.
Qed.

Lemma swept_get o i keys k :
  obj_get (swept o i keys) k =
    if decide (k ∈ keys ∧ obj_get o k ≠ Some i) then None else obj_get o k.
Proof.
  revert o. induction keys as [|k0 keys IH]; intros o; simpl.
  - done.
  - destruct (decide (obj_get o k0 = Some i)) as [E|E]; rewrite IH.
    + destruct (decide (k = k0)) as [->|Hne].
      * rewrite !decide_False; [done | naive_solver | naive_solver].
      * apply decide_ext. rewrite elem_of_cons. naive_solver.
    + rewrite obj_get_delete. destruct (decide (k = k0)) as [->|Hne].
      * rewrite (decide_True (P := _ ∈ _ :: _ ∧ _)); [|split; [apply list_elem_of_here | done]].
        by destruct (decide _).
      * apply decide_ext. rewrite elem_of_cons. naive_solver.
Qed.

Lemma swept_NoDup o i keys : NoDup o.*1 -> NoDup (swept o i keys).*1.
Proof.
  revert o. induction keys as [|k keys IH]; intros o H; simpl; [done|].
  destruct (decide _); auto using obj_delete_NoDup.
Qed.

Lemma swept_elem o i keys p : p ∈ swept o i keys -> p ∈ o.
Proof.
  revert o. induction keys as [|k keys IH]; intros o; simpl; [done|].
  destruct (decide _); [auto|]. intros H%IH. by apply obj_delete_elem in H as [H _].
Qed.

Lemma stamp_get o i docs k :
  obj_get (stamp o i docs) k =
    if decide (k ∈ key_of <$> docs ∧ storable o k) then Some i else obj_get o k.
Proof.
  revert o. induction docs as [|d docs IH]; intros o; csimpl.
  - done.
  - rewrite IH, store_get.
    destruct (decide (k ∈ key_of <$> docs ∧ storable (store o (key_of d) i) k))
      as [[Hin Hs]|Hn].
    + apply storable_store in Hs.
      rewrite decide_True; [done | split; [by apply list_elem_of_further | done]].
    + destruct (decide (k = key_of d ∧ storable o (key_of d))) as [[-> Hs]|Hn'].
      * rewrite decide_True; [done | split; [apply list_elem_of_here | done]].
      * rewrite decide_False; [done|]. rewrite elem_of_cons.
        intros [[->|Hin] Hs]; [by apply Hn' | apply Hn].
        split; [done | by apply storable_store].
Qed.

Lemma stamp_keys o i docs k :
  k ∈ (stamp o i docs).*1 <-> (k ∈ key_of <$> docs ∧ storable o k) ∨ k ∈ o.*1.
Proof.
  rewrite <- !obj_get_is_Some, stamp_get.
  destruct (decide (k ∈ key_of <$> docs ∧ storable o k)) as [H|H].
  - split; [by left | by eexists].
  - split; [by right | by intros [?|?]].
Qed.

Lemma stamp_NoDup o i docs : NoDup o.*1 -> NoDup (stamp o i docs).*1.
Proof.
  revert o. induction docs as [|d docs IH]; intros o H; simpl; [done|].
  auto using store_NoDup.
Qed.

Lemma stamp_elem o i docs p : p ∈ stamp o i docs -> p.2 = i ∨ p ∈ o.
Proof.
  revert o. induction docs as [|d docs IH]; intros o; simpl; [auto|].
  intros [?|[->|?]%store_elem]%IH; auto.
Qed.

(** ** Well-formed states *)

Lemma wf_stamps s k v : wf s -> obj_get (ids s) k = Some v -> 1 <= v <= iteration s.
Proof.
  intros (_ & _ & H) Hk. rewrite list.Forall_forall in H.
  apply (H (k, v)), obj_get_elem, Hk.
Qed.




Lemma reconcile_records c docs s :
  forallb is_record docs = true ->
  reconcile c (VArr docs) s =
    (let o1 := stamp (ids s) (iteration s) docs in
     (set_ids (swept o1 (iteration s) (own_keys o1)) s,
      visit_effects c (ids s) (iteration s) docs ++
      ((fun k => Removed (client c) (VStr k)) <$> stale o1 (iteration s) (own_keys o1)),
      inr tt)).
Proof.
  intros H. unfold reconcile, forEach_value.
  unfold mbind at 1. rewrite (forEach_visit_records _ _ _ H).
  unfold mbind, reads, ret. simpl. rewrite forEach_sweep. done.
Qed.

(** After the two loops: what [sub._ids] holds and which keys were removed. *)
Lemma swept_stamp_get o i docs k :
  let o1 := stamp o i docs in
  obj_get (swept o1 i (own_keys o1)) k =
    if decide (k ∈ key_of <$> docs ∧ storable o k) then Some i
    else if decide (obj_get o k = Some i) then Some i else None.
Proof.
  intros o1. rewrite swept_get.
  assert (Hget := stamp_get o i docs k). fold o1 in Hget.
  destruct (decide (k ∈ own_keys o1 ∧ obj_get o1 k ≠ Some i)) as [[Hk Hne]|Hn].
  - rewrite Hget in Hne.
    destruct (decide (k ∈ key_of <$> docs ∧ storable o k)); [done|].
    destruct (decide (obj_get o k = Some i)); done.
  - rewrite Hget.
    destruct (decide (k ∈ key_of <$> docs ∧ storable o k)) as [Hin|Hin]; [done|].
    destruct (decide (obj_get o k = Some i)) as [E|E]; [done|].
    destruct (obj_get o k) as [v|] eqn:Ev; [|done].
    exfalso. apply Hn. rewrite own_keys_elem, <- obj_get_is_Some, Hget.
    split; [by eexists | done].
Qed.




(** ** The shape of every recompute *)

Lemma mbind_run {A B} (m : M A) (f : A -> M B) s s1 l1 x :
  m s = (s1, l1, inr x) ->
  mbind m f s = (let '(s2, l2, r) := f x s1 in (s2, l1 ++ l2, r)).
Proof. intros H. unfold mbind. by rewrite H. Qed.

Lemma mbind_fail {A B} (m : M A) (f : A -> M B) s s1 l1 e :
  m s = (s1, l1, inl e) -> mbind m f s = (s1, l1, inl e).
Proof. intros H. unfold mbind. by rewrite H. Qed.

Lemma visit_effects_doc c o i docs : Forall (doc_event c) (visit_effects c o i docs).
Proof.
  revert o. induction docs as [|d docs IH]; intros o; simpl; [done|].
  constructor; [|done]. unfold visit_effect. by destruct (unknown _ _).
Qed.

Lemma removed_doc c (keys : list string) :
  Forall (doc_event c) ((fun k => Removed (client c) (VStr k)) <$> keys).
Proof. induction keys; csimpl; by constructor. Qed.

Lemma wf_stamp s docs :
  wf s -> wf (set_ids (stamp (ids s) (iteration s) docs) s).
Proof.
  intros (Hnd & Hi & Hst). unfold wf. simpl. split_and!; [by apply stamp_NoDup | done |].
  rewrite list.Forall_forall in Hst |- *. intros p [->|Hp]%stamp_elem; [lia | auto].
Qed.

Lemma wf_swept s keys :
  wf s -> wf (set_ids (swept (ids s) (iteration s) keys) s).
Proof.
  intros (Hnd & Hi & Hst). unfold wf. simpl. split_and!; [by apply swept_NoDup | done |].
  rewrite list.Forall_forall in Hst |- *. intros p Hp%swept_elem. auto.
Qed.

Lemma wf_set_iteration s i :
  wf s -> iteration s <= i -> wf (set_iteration i s).
Proof.
  intros (Hnd & Hi & Hst) Hle. unfold wf. simpl. split_and!; [done | lia |].
  eapply list.Forall_impl; [exact Hst|]. simpl. intros. lia.
Qed.

Lemma incr_ge x : x <= incr x.
Proof. unfold incr. destruct (x <? 2 ^ 53); lia. Qed.

Lemma incr_succ x : x < 2 ^ 53 -> incr x = x + 1.
Proof. intros H. unfold incr. by rewrite (proj2 (Z.ltb_lt _ _) H). Qed.

(** Whatever [docs] holds, the two loops only rewrite [sub._ids], keep the
    state well formed and call the sink for documents only. *)
Lemma reconcile_any c docs s :
  exists o' l res,
    reconcile c docs s = (set_ids o' s, l, res)
    /\ (wf s -> wf (set_ids o' s))
    /\ Forall (doc_event c) l.
Proof.
  destruct docs as [| | | | |items|];
    try (exists (ids s), [], (inl (TypeError "docs.forEach is not a function"));
         rewrite set_ids_same; by split_and!).
  - exists (ids s), [], (inl (TypeError "Cannot read property 'forEach' of undefined")).
    rewrite set_ids_same. by split_and!.
  - exists (ids s), [], (inl (TypeError "Cannot read property 'forEach' of null")).
    rewrite set_ids_same. by split_and!.
  - destruct (forEach_visit_prefix c items s) as (n & res & Hrun & Hrec & Hlen).
    destruct res as [e|[]].
    + eexists _, _, _. split_and!.
      * unfold reconcile, forEach_value. rewrite (mbind_fail _ _ _ _ _ _ Hrun). done.
      * apply wf_stamp.
      * apply visit_effects_doc.
    + eexists _, _, _. split_and!.
      * unfold reconcile, forEach_value. rewrite (mbind_run _ _ _ _ _ _ Hrun).
        unfold mbind, reads, ret. simpl. rewrite forEach_sweep. simpl. done.
      * intros Hwf. apply (wf_swept (set_ids _ s)), wf_stamp, Hwf.
      * apply Forall_app. split; [apply visit_effects_doc | apply removed_doc].
Qed.

Lemma object_keys_record v : is_record v = true -> exists names, object_keys v = inr names.
Proof. destruct v; try done; simpl; eauto. Qed.

Lemma collect_all_record c first extras names :
  is_record first = true -> exists extras', collect_all c first extras names = inr extras'.
Proof.
  intros H. revert extras. induction names as [|n names IH]; intros extras; simpl.
  - by eexists.
  - unfold collect. destruct (strict_ne_string _ _); simpl; [|apply IH].
    destruct (get_record first n H) as [v ->]. simpl. apply IH.
Qed.

Lemma set_iteration_same o s : set_iteration (iteration s) (set_ids o s) = set_ids o s.
Proof. by destruct s. Qed.

(** The differ in one piece: the snapshot is taken, the extras are
    published, the two loops run and the counter moves on. *)
Lemma diff_run c r s :
  diff c r s =
    match snapshot c r with
    | inl e => (s, [], inl e)
    | inr docs =>
        match reconcile c docs s with
        | (s1, l, inr _) =>
            (set_iteration (incr (iteration s1)) s1, extras_events c r ++ l, inr tt)
        | (s1, l, inl e) => (s1, extras_events c r ++ l, inl e)
        end
    end.
Proof.
  unfold diff, snapshot, extras_events, extras_event, extras_of.
  fold (first_record r).
  destruct (truthy (docsPropName (opts c))) eqn:Hname; simpl.
  - destruct (is_record (first_record r)) eqn:Hrec.
    + destruct (get_record _ (to_string (docsPropName (opts c))) Hrec) as [docs Hdocs].
      destruct (object_keys_record _ Hrec) as [names Hnames].
      destruct (collect_all_record c _ [] names Hrec) as [extras Hextras].
      unfold mbind, lift, emit, modify. rewrite Hdocs, Hnames, Hextras.
      destruct (reconcile c docs s) as [[s1 l] [e|[]]]; [done|].
      unfold ret. simpl. by rewrite app_nil_r.
    + destruct (get_not_record _ (to_string (docsPropName (opts c))) Hrec) as [e He].
      unfold mbind, lift. by rewrite He.
  - unfold mbind, mret, modify, ret. simpl.
    destruct (reconcile c (VArr r) s) as [[s1 l] [e|[]]]; [done|].
    simpl. by rewrite app_nil_r.
Qed.

(** Every run of the differ: it only rewrites [sub._ids] and the counter,
    keeps the state well formed, moves the counter on exactly when it
    completes, and calls the sink for the extras first, if at all, and for
    documents after that. *)
Lemma diff_any c r s :
  exists o' i' pre l res,
    diff c r s = (set_iteration i' (set_ids o' s), pre ++ l, res)
    /\ (wf s -> wf (set_iteration i' (set_ids o' s)))
    /\ i' = (if res is inr _ then incr (iteration s) else iteration s)
    /\ Forall (doc_event c) l
    /\ (pre = [] \/ pre = extras_events c r).
Proof.
  rewrite diff_run. destruct (snapshot c r) as [e|docs].
  - exists (ids s), (iteration s), [], [], (inl e).
    rewrite set_iteration_same, set_ids_same. split_and!; auto.
  - destruct (reconcile_any c docs s) as (o' & l & res & Hrun & Hwf & Hl).
    rewrite Hrun. destruct res as [e|[]].
    + exists o', (iteration s), (extras_events c r), l, (inl e).
      rewrite set_iteration_same. split_and!; auto.
    + exists o', (incr (iteration s)), (extras_events c r), l, (inr tt).
      split_and!; auto.
      intros H. apply (wf_set_iteration (set_ids o' s)); auto. apply incr_ge.
Qed.

(** ** The steps of the subscription *)

Lemma resume_reject c e s :
  resume c (throw e) s = (s, [], inl (TunguskaReactiveAggregateError (message e))).
Proof. done. Qed.

Lemma resume_resolve c r s :
  resume c (ret r) s =
    match diff c r s with
    | (s1, l1, inl e) => (s1, l1, inl (TunguskaReactiveAggregateError (message e)))
    | other => other
    end.
Proof.
  unfold resume, rethrow, mbind, lift, ret. simpl.
  destruct (diff c r s) as [[s1 l1] [e|[]]]; simpl; done.
Qed.

Ltac run_monad :=
  unfold debounce, update, setTimeout, clearTimeout, onStop, settle,
    mbind, mret, mthrow, lift, emit, reads, modify, ret, throw; simpl.

(** [update] up to its [await]: one aggregation request, unless the
    subscription is still initializing. *)
Lemma update_run c s :
  update c s =
    if initializing s then (s, [], inr tt)
    else (set_pending (S (pending s)) s,
          [Aggregate (pipeline c) (aggregationOptions (opts c))], inr tt).
Proof. run_monad. by destruct (initializing s). Qed.

Lemma debounce_initializing c s :
  initializing s = true -> debounce c s = (s, [], inr tt).
Proof. intros H. run_monad. by rewrite H. Qed.

(** What [debounce] leaves alone. *)
Lemma debounce_frame c s :
  let s' := (debounce c s).1.1 in
  ids s' = ids s /\ iteration s' = iteration s /\
  handles s' = handles s /\ initializing s' = initializing s.
Proof.
  destruct s as [ini o i n t a f p h]. run_monad.
  destruct ini; simpl; [done|].
  destruct t, (gt0 (debounceCount (opts c))); simpl;
    destruct (exceeds (incr n) (debounceCount (opts c))); simpl; done.
Qed.

Lemma debounce_returns c s : exists s' l, debounce c s = (s', l, inr tt).
Proof.
  destruct s as [ini o i n t a f p h]. run_monad.
  destruct ini; simpl; [by eexists _, _|].
  destruct t, (gt0 (debounceCount (opts c))); simpl;
    destruct (exceeds (incr n) (debounceCount (opts c))); simpl;
    by eexists _, _.
Qed.

Lemma onStop_run s :
  onStop s =
    (set_handles (replicate (length (handles s)) false) s,
     StopHandle <$> seq 0 (length (handles s)), inr tt).
Proof.
  unfold onStop. unfold mbind at 1. unfold reads at 1. unfold ret. simpl.
  assert (H : forall l, forEach l (fun i => emit (StopHandle i)) s
                        = (s, StopHandle <$> l, inr tt)).
  { induction l as [|x l IH]; [done|]. simpl. unfold mbind at 1.
    unfold emit at 1. unfold ret. simpl. by rewrite IH. }
  unfold mbind. rewrite H. unfold modify, ret. simpl. by rewrite app_nil_r.
Qed.

(** Every step keeps the state well formed. *)
Lemma wf_step c s i : wf s -> wf (step c s i).1.
Proof.
  intros Hwf. destruct i as [n|h|r|e|]; simpl.
  - destruct (bool_decide _); [|done].
    destruct (debounce_returns c s) as (s' & l & Hd).
    pose proof (debounce_frame c s) as (Hi & Hit & _). rewrite Hd in Hi, Hit.
    unfold settle. rewrite Hd. simpl in *.
    unfold wf. by rewrite Hi, Hit.
  - destruct (bool_decide _); [|done].
    unfold settle. rewrite update_run. simpl. by destruct (initializing s).
  - destruct (pending s) as [|n]; [done|].
    unfold settle. rewrite resume_resolve.
    destruct (diff_any c r (set_pending n s)) as (o' & i' & pre & l & res & Hrun & Hwf' & _).
    rewrite Hrun. destruct res as [e|[]]; simpl; by apply Hwf'.
  - destruct (pending s) as [|n]; done.
  - unfold settle. by rewrite onStop_run.
Qed.

Lemma wf_run c s inputs : wf s -> wf (run c s inputs).1.
Proof.
  revert s. induction inputs as [|i inputs IH]; intros s Hwf; simpl; [done|].
  pose proof (wf_step c s i Hwf) as H1. destruct (step c s i) as [s1 l1].
  specialize (IH s1 H1). destruct (run c s1 inputs) as [s2 l2]. done.
Qed.

(** No step gives [sub._ids] a key that an assignment does not store; in
    particular the key [__proto__] never gets in. *)
Lemma reconcile_storable c docs s k :
  k ∈ (ids (reconcile c docs s).1.1).*1 -> storable (ids s) k.
Proof.
  destruct docs as [| | | | |items|]; try (by apply storable_own).
  destruct (forEach_visit_prefix c items s) as (n & res & Hrun & _).
  unfold reconcile, forEach_value. destruct res as [e|[]].
  - rewrite (mbind_fail _ _ _ _ _ _ Hrun). simpl.
    intros [[_ ?]|?]%stamp_keys; [done | by apply storable_own].
  - rewrite (mbind_run _ _ _ _ _ _ Hrun).
    unfold mbind, reads, ret. simpl. rewrite forEach_sweep. simpl.
    intros (p & -> & Hp)%list_elem_of_fmap. apply swept_elem in Hp.
    assert (Hk : p.1 ∈ (stamp (ids s) (iteration s) (take n items)).*1)
      by (by apply list_elem_of_fmap_2).
    apply stamp_keys in Hk as [[_ ?]|?]; [done | by apply storable_own].
Qed.

Lemma step_storable c s i k : k ∈ (ids (step c s i).1).*1 -> storable (ids s) k.
Proof.
  destruct i as [n|h|r|e|]; simpl.
  - destruct (bool_decide _); [|apply storable_own].
    destruct (debounce_returns c s) as (s' & l & Hd).
    pose proof (debounce_frame c s) as (Hi & _). rewrite Hd in Hi.
    unfold settle. rewrite Hd. simpl in *. rewrite Hi. apply storable_own.
  - destruct (bool_decide _); [|apply storable_own].
    unfold settle. rewrite update_run. simpl.
    destruct (initializing s); apply storable_own.
  - destruct (pending s) as [|n]; [apply storable_own|].
    unfold settle. rewrite resume_resolve, diff_run.
    destruct (snapshot c r) as [e|docs]; [apply storable_own|].
    pose proof (reconcile_storable c docs (set_pending n s) k) as H.
    destruct (reconcile c docs (set_pending n s)) as [[s1 l1] [e|[]]]; exact H.
  - destruct (pending s) as [|n]; apply storable_own.
  - unfold settle. rewrite onStop_run. apply storable_own.
Qed.

Lemma run_no_proto c s inputs :
  "__proto__" ∉ (ids s).*1 -> "__proto__" ∉ (ids (run c s inputs).1).*1.
Proof.
  revert s. induction inputs as [|i inputs IH]; intros s Hs; simpl; [done|].
  assert (H1 : "__proto__" ∉ (ids (step c s i).1).*1).
  { intros [?|?]%step_storable; done. }
  destruct (step c s i) as [s1 l1].
  specialize (IH s1 H1). destruct (run c s1 inputs) as [s2 l2]. done.
Qed.

(** ** The constructor *)

Lemma set_handles_same s : set_handles (handles s) s = s.
Proof. by destruct s. Qed.

Lemma signals_while_initializing c n s :
  initializing s = true ->
  forEach (replicate n tt) (fun _ => debounce c) s = (s, [], inr tt).
Proof.
  intros H. induction n as [|n IH]; simpl; [done|].
  unfold mbind. by rewrite (debounce_initializing _ _ H), IH.
Qed.

Lemma observe_run c cursor n s :
  initializing s = true -> observable cursor = true ->
  observe c cursor n s = (set_handles (handles s ++ [true]) s, [Observe cursor], inr tt).
Proof.
  intros H Ho. unfold observable, has in Ho. unfold observe.
  destruct (get cursor "observeChanges") as [e|method]; [done|].
  unfold mbind at 1. unfold lift, ret. simpl. rewrite Ho.
  unfold mbind at 1. unfold mret, ret.
  unfold mbind at 1. unfold emit at 1. unfold ret. simpl. unfold mbind at 1.
  rewrite (signals_while_initializing _ _ _ H). unfold modify, ret. done.
Qed.

Lemma observe_stops c cursor n s :
  observable cursor = false -> exists m, observe c cursor n s = (s, [], inl (TypeError m)).
Proof.
  intros Ho. unfold observe. unfold observable, has in Ho.
  destruct (get cursor "observeChanges") as [e|method] eqn:Hget.
  - unfold mbind at 1. unfold lift.
    destruct cursor; try done; simpl in Hget;
      repeat case_decide; repeat case_match; try done;
      injection Hget as <-; by eexists.
  - unfold mbind at 1. unfold lift, ret. simpl. rewrite Ho.
    unfold mbind at 1. unfold mthrow, throw. by eexists.
Qed.

Lemma observe_all_run c cursors initial s :
  initializing s = true -> forallb observable cursors = true ->
  observe_all c cursors initial s =
    (set_handles (handles s ++ replicate (length cursors) true) s,
     Observe <$> cursors, inr tt).
Proof.
  revert initial s. induction cursors as [|cur cursors IH]; intros initial s H Ho; simpl.
  - unfold mret, ret. by rewrite app_nil_r, set_handles_same.
  - apply andb_prop in Ho as [Hcur Ho].
    unfold mbind at 1. rewrite observe_run by done.
    rewrite IH by done. simpl. by rewrite <- app_assoc.
Qed.

(** Attaching the observers stops at the first entry that is no cursor. *)
Lemma observe_all_stops c cursors initial s :
  initializing s = true -> forallb observable cursors = false ->
  exists s' l m, observe_all c cursors initial s = (s', l, inl (TypeError m)).
Proof.
  revert initial s. induction cursors as [|cur cursors IH]; intros initial s H Ho;
    simpl in *; [done|].
  destruct (observable cur) eqn:Hcur; simpl in Ho.
  - unfold mbind at 1. rewrite observe_run by done.
    destruct (IH (tl initial) (set_handles (handles s ++ [true]) s) H Ho)
      as (s' & l & m & ->). by eexists _, _, _.
  - unfold mbind at 1.
    destruct (observe_stops c cur (hd 0%nat initial) s Hcur) as [m ->].
    by eexists _, _, _.
Qed.

Lemma wire_run c initial :
  forallb observable (observers (opts c)) = true ->
  wire c initial blank =
    (started (length (observers (opts c))),
     (Observe <$> observers (opts c)) ++
     [Aggregate (pipeline c) (aggregationOptions (opts c)); Ready],
     inr tt).
Proof.
  intros Ho. unfold wire, mbind, modify, ret. simpl.
  rewrite observe_all_run by done. done.
Qed.

Lemma wire_stops c initial :
  forallb observable (observers (opts c)) = false ->
  exists s l m, wire c initial blank = (s, l, inl (TypeError m)).
Proof.
  intros Ho. unfold wire, mbind, modify, ret. simpl.
  destruct (observe_all_stops c (observers (opts c)) initial
              (set_currentDebounceCount 0
                 (set_iteration 1 (set_ids [] (set_initializing true blank))))
              eq_refl Ho) as (s & l & m & ->).
  by eexists _, _, _.
Qed.

(** The documents that the cursors hold while the observers are attached
    play no part. *)
Lemma observe_initial c cursor n n' s :
  initializing s = true -> observe c cursor n s = observe c cursor n' s.
Proof.
  intros H. unfold observe.
  destruct (get cursor "observeChanges") as [e|method]; [done|].
  unfold mbind at 1 5. unfold lift, ret. simpl.
  destruct (truthy method); [|done].
  unfold mbind at 1 4. unfold mret, ret.
  unfold mbind at 1 3. unfold emit at 1 2. unfold ret. simpl. unfold mbind at 1 2.
  by rewrite !(signals_while_initializing _ _ _ H).
Qed.

Lemma observe_all_initial c cursors initial initial' s :
  initializing s = true ->
  observe_all c cursors initial s = observe_all c cursors initial' s.
Proof.
  revert initial initial' s.
  induction cursors as [|cur cursors IH]; intros initial initial' s H; simpl; [done|].
  unfold mbind at 1 2.
  rewrite (observe_initial c cur (hd 0%nat initial) (hd 0%nat initial') s H).
  destruct (observable cur) eqn:Hcur.
  - rewrite observe_run by done.
    by rewrite (IH (tl initial) (tl initial') (set_handles (handles s ++ [true]) s) H).
  - by destruct (observe_stops c cur (hd 0%nat initial') s Hcur) as [m ->].
Qed.

Lemma wire_initial c initial initial' : wire c initial blank = wire c initial' blank.
Proof.
  unfold wire, mbind, modify, ret. simpl.
  by rewrite (observe_all_initial c _ initial initial').
Qed.

Lemma wf_started n : wf (started n).
Proof. unfold wf, started. simpl. split_and!; [constructor | lia | constructor]. Qed.

(** What a successful construction returns: the observers are attached, one
    aggregation is requested and the subscription is marked ready; nothing of
    it depends on the signals that arrived meanwhile. *)
Lemma constructor_run sub0 collection0 pipeline0 options0 initial c s l :
  ReactiveAggregate sub0 collection0 pipeline0 options0 initial = inr (c, s, l) ->
  s = started (length (observers (opts c))) /\
  l = (Observe <$> observers (opts c)) ++
      [Aggregate (pipeline c) (aggregationOptions (opts c)); Ready].
Proof.
  unfold ReactiveAggregate.
  destruct (check _ _ _ _) as [e|lo]; simpl; [done|].
  match goal with
  | |- context [wire ?c0 _ _] =>
      destruct (forallb observable (observers (opts c0))) eqn:Ho
  end.
  - rewrite wire_run by done. intros [= <- <- <-]. done.
  - match goal with
    | |- context [wire ?c0 _ _] => destruct (wire_stops c0 initial Ho) as (s' & l' & m' & ->)
    end.
    done.
Qed.

(** Every observer of a constructed subscription is a cursor. *)
Lemma constructor_observable sub0 collection0 pipeline0 options0 initial c s l :
  ReactiveAggregate sub0 collection0 pipeline0 options0 initial = inr (c, s, l) ->
  forallb observable (observers (opts c)) = true.
Proof.
  unfold ReactiveAggregate.
  destruct (check _ _ _ _) as [e|lo]; simpl; [done|].
  match goal with
  | |- context [wire ?c0 _ _] =>
      destruct (forallb observable (observers (opts c0))) eqn:Ho
  end.
  - rewrite wire_run by done. by intros [= <- <- <-].
  - match goal with
    | |- context [wire ?c0 _ _] => destruct (wire_stops c0 initial Ho) as (s' & l' & m' & ->)
    end.
    done.
Qed.

(** ** The example subscriptions *)

Example plain_constructed :
  ReactiveAggregate a_sub posts VUndefined VUndefined [] =
    inr (plain, started 1,
         [Observe (find posts (VObj Object_ []) (VObj Object_ []));
          Aggregate (VArr []) (VObj Object_ []); Ready]).
Proof. reflexivity. Qed.

Example batched_options :
  debounceCount (opts batched) = Some 2 /\ debounceDelay (opts batched) = Some 100.
Proof. split; reflexivity. Qed.

Example faceted_options : docsPropName (opts faceted) = VStr "items".
Proof. reflexivity. Qed.

(** The key of an identity is what [String] makes of it. *)
Example keys_of_identities :
  let with_id := fun id => VObj Object_ [("_id", id)] in
  key_of <$> [with_id (VNum (Int 1)); with_id (VStr "1"); with_id (VNum (Dec false 1 "5"));
              with_id (VNum (Int (10 ^ 21))); with_id VNull; with_id (VBool true);
              with_id (VArr [VNum (Int 1); VStr "a"]); with_id (VObj Object_ []);
              VObj Object_ []]
  = ["1"; "1"; "1.5"; "1e+21"; "null"; "true"; "1,a"; "[object Object]"; "undefined"].
Proof. reflexivity. Qed.

(** What [!sub._ids[key]] finds in an empty [sub._ids]: the members of
    [Object.prototype], and nothing else. *)
Example inherited_members_found :
  forallb (fun key => negb (unknown [] key))
    ["constructor"; "toString"; "valueOf"; "hasOwnProperty"; "isPrototypeOf";
     "propertyIsEnumerable"; "toLocaleString"; "__proto__"; "__defineGetter__";
     "__defineSetter__"; "__lookupGetter__"; "__lookupSetter__"] = true
  /\ forallb (unknown []) ["1"; "undefined"; "prototype"; "length"; "_id"] = true.
Proof. split; reflexivity. Qed.

(** A record with the identity "__proto__" is changed and leaves no entry;
    one with the identity "constructor" is changed and gets its entry. *)
Example proto_key_not_stored :
  let proto := VObj Object_ [("_id", VStr "__proto__")] in
  let named := VObj Object_ [("_id", VStr "constructor")] in
  step plain (started 1) (Resolve [proto; named]) =
    (set_iteration 2 (set_ids [("constructor", 1)] (set_pending 0 (started 1))),
     [Changed (VStr "posts") (VStr "__proto__") proto;
      Changed (VStr "posts") (VStr "constructor") named]).
Proof. reflexivity. Qed.

(** Two identities with one key are one entry of [sub._ids]: the number 1
    is added, the string "1" after it is changed. *)
Example shared_key_changed :
  let one := VObj Object_ [("_id", VNum (Int 1))] in
  let one' := VObj Object_ [("_id", VStr "1")] in
  step plain (started 1) (Resolve [one; one']) =
    (set_iteration 2 (set_ids [("1", 1)] (set_pending 0 (started 1))),
     [Added (VStr "posts") (VNum (Int 1)) one;
      Changed (VStr "posts") (VStr "1") one']).
Proof. reflexivity. Qed.

(** The examples of the specification: two snapshots in a row. *)
Example two_snapshots :
  (run plain (started 1)
     [Resolve [post 1 10; post 2 20]; Signal 0; Resolve [post 2 21; post 3 30]]).2 =
    [Added (VStr "posts") (VNum (Int 1)) (post 1 10);
     Added (VStr "posts") (VNum (Int 2)) (post 2 20);
     Aggregate (VArr []) (VObj Object_ []);
     Changed (VStr "posts") (VNum (Int 2)) (post 2 21);
     Added (VStr "posts") (VNum (Int 3)) (post 3 30);
     Removed (VStr "posts") (VStr "1")].
Proof. reflexivity. Qed.

(** ** The differ *)

(** A recompute over a snapshot of records runs through. *)
Lemma step_resolve_records c s n r docs :
  pending s = S n ->
  snapshot c r = inr (VArr docs) -> forallb is_record docs = true ->
  step c s (Resolve r) =
    (let i := iteration s in
     let o1 := stamp (ids s) i docs in
     (set_iteration (incr i) (set_ids (swept o1 i (own_keys o1)) (set_pending n s)),
      extras_events c r ++ visit_effects c (ids s) i docs ++
      ((fun k => Removed (client c) (VStr k)) <$> stale o1 i (own_keys o1)))).
Proof.
  intros Hp Hsnap Hrec. simpl. rewrite Hp. unfold settle.
  rewrite resume_resolve, diff_run, Hsnap, (reconcile_records _ _ _ Hrec). done.
Qed.





(** C4. When a pending aggregation fails, the promise of [update] is
    rejected with a [TunguskaReactiveAggregateError] that carries the message
    of the failure; the sink is not called, and the state is what it was but
    for the host's count of pending calls: [sub._ids], the counter, the
    debounce variables and the observer handles are untouched, so the
    subscription goes on as before. *)
Theorem aggregation_failure c s n e :
  pending s = S n ->
  let '(s', l) := step c s (Reject e) in
  l = [Rejected (TunguskaReactiveAggregateError (message e))]
  /\ s' = set_pending n s
  /\ ids s' = ids s /\ iteration s' = iteration s
  /\ handles s' = handles s /\ initializing s' = initializing s
  /\ Forall (fun x => sink x = false) l.
Proof.
  intros H. simpl. rewrite H. unfold settle. rewrite resume_reject. simpl.
  split_and!; try done. by repeat constructor.
Qed.

Lemma aggregation_failure_witness :
  pending (started 1) = 1%nat /\
  let '(s', l) := step plain (started 1) (Reject (TypeError "connection lost")) in
  l = [Rejected (TunguskaReactiveAggregateError "connection lost")]
  /\ s' = set_pending 0 (started 1)
  /\ ids s' = ids (started 1) /\ iteration s' = iteration (started 1)
  /\ handles s' = handles (started 1) /\ initializing s' = initializing (started 1)
  /\ Forall (fun x => sink x = false) l.
Proof.
  split; [reflexivity|].
  exact (aggregation_failure plain (started 1) 0 (TypeError "connection lost") eq_refl).
Defined.

(** The extras hold exactly the own properties of the first record whose
    name is not strictly equal to [docsPropName]; a property [__proto__] is
    not among them, the assignment does not create it. *)
Lemma collect_all_get c cl props acc names k :
  exists extras,
    collect_all c (VObj cl props) acc names = inr extras /\
    obj_get extras k =
      if decide (k ∈ names /\ strict_ne_string k (docsPropName (opts c)) = true
                 /\ storable acc k)
      then Some (default VUndefined (obj_get props k))
      else obj_get acc k.
Proof.
  revert acc. induction names as [|n names IH]; intros acc; simpl.
  - by exists acc.
  - unfold collect. destruct (strict_ne_string n _) eqn:Hn; simpl.
    + destruct (IH (store acc n (default VUndefined (obj_get props n))))
        as (extras & -> & Hget).
      exists extras. split; [done|]. rewrite Hget, store_get.
      destruct (decide (k ∈ names ∧ _ ∧ storable (store acc n _) k))
        as [(Hin & Hk & Hs)|Hnot].
      * apply storable_store in Hs. rewrite decide_True; [done|].
        split; [by apply list_elem_of_further | done].
      * destruct (decide (k = n ∧ storable acc n)) as [[-> Hs]|Hn'].
        -- rewrite decide_True; [done | split; [apply list_elem_of_here | done]].
        -- rewrite decide_False; [done|]. rewrite elem_of_cons.
           intros ([->|Hin] & Hk & Hs); [by apply Hn'|]. apply Hnot.
           split; [done|]. split; [done | by apply storable_store].
    + destruct (IH acc) as (extras & -> & Hget).
      exists extras. split; [done|]. rewrite Hget.
      apply decide_ext. rewrite elem_of_cons. split; [naive_solver|].
      intros ([->|?] & ? & ?); [congruence | done].
Qed.

Lemma extras_of_get c cl props k :
  obj_get (extras_of c (VObj cl props)) k =
    if strict_ne_string k (docsPropName (opts c))
       && negb (bool_decide (k = "__proto__"))
    then obj_get props k else None.
Proof.
  unfold extras_of. simpl.
  destruct (collect_all_get c cl props [] (own_keys props) k) as (extras & -> & ->).
  destruct (strict_ne_string k _) eqn:Hk; simpl.
  - destruct (decide (k = "__proto__")) as [->|Hp].
    + rewrite bool_decide_eq_true_2 by done. simpl.
      rewrite decide_False; [done|]. intros (_ & _ & [?|Hin]); [done|].
      by apply elem_of_nil in Hin.
    + rewrite bool_decide_eq_false_2 by done. simpl.
      destruct (obj_get props k) as [v|] eqn:Hv.
      * rewrite decide_True; [done|]. split; [|split; [done | by left]].
        apply own_keys_elem. by eapply obj_get_Some_elem.
      * rewrite decide_False; [done|]. intros [Hin _].
        apply own_keys_elem in Hin. by apply obj_get_None in Hv.
  - rewrite decide_False; [done | naive_solver].
Qed.

(** C10. With [docsPropName] configured, the calls of the sink in one
    recompute start with the extras, whenever the aggregation returned a first
    record at all, and only then come the calls for documents; this is so
    whether the recompute completes or fails later on, so a recompute that
    fails among the documents has published its extras already.  Without a
    first record the recompute fails before it calls the sink. *)
Theorem extras_first c s r :
  truthy (docsPropName (opts c)) = true ->
  let '(s', l, res) := resume c (ret r) s in
  if is_record (first_record r)
  then exists rest,
         l = extras_event c (first_record r) :: rest /\ Forall (doc_event c) rest
  else l = [] /\ exists e, res = inl e.
Proof.
  intros Hname. rewrite resume_resolve, diff_run.
  unfold snapshot, extras_events. rewrite Hname.
  destruct (is_record (first_record r)) eqn:Hrec.
  - destruct (get_record _ (to_string (docsPropName (opts c))) Hrec) as [docs ->].
    destruct (reconcile_any c docs s) as (o' & l & res & -> & _ & Hl).
    destruct res as [e|[]]; simpl; eauto.
  - destruct (get_not_record _ (to_string (docsPropName (opts c))) Hrec) as [e ->].
    eauto.
Qed.

Lemma extras_first_witness :
  let r := [facet [post 1 1; VNull] 5] in
  truthy (docsPropName (opts faceted)) = true /\
  (resume faceted (ret r) (started 1)).2 =
    inl (TunguskaReactiveAggregateError "Cannot read property '_id' of null") /\
  let '(s', l, res) := resume faceted (ret r) (started 1) in
  if is_record (first_record r)
  then exists rest,
         l = extras_event faceted (first_record r) :: rest /\
         Forall (doc_event faceted) rest
  else l = [] /\ exists e, res = inl e.
Proof.
  intros r. split; [reflexivity|]. split; [reflexivity|].
  exact (extras_first faceted (started 1) r eq_refl).
Defined.

(** The aggregation returns a total of 5, then of 6: the extras are added
    twice. *)
Example extras_added_again :
  (run faceted (started 1)
     [Resolve [facet [post 1 1] 5]; Signal 0; Resolve [facet [post 1 1] 6]]).2 =
    [Added (VStr "ReactiveAggregate") (VStr "s1")
       (VObj Object_ [("total", VNum (Int 5))]);
     Added (VStr "posts") (VNum (Int 1)) (post 1 1);
     Aggregate (VArr []) (VObj Object_ []);
     Added (VStr "ReactiveAggregate") (VStr "s1")
       (VObj Object_ [("total", VNum (Int 6))]);
     Changed (VStr "posts") (VNum (Int 1)) (post 1 1)].
Proof. reflexivity. Qed.

(** C3. With [docsPropName] configured, every recompute whose aggregation
    returned a first record publishes the extras by [added], whatever the
    state it starts from, so the later recomputes as well as the first:
    [initializingExtras] is a variable of [update] and is [true] each time its
    test is reached.  The extras are keyed by the subscription and hold the
    own properties of the first record but the one named [docsPropName], and
    but a property [__proto__]: the assignment [extras[name] = value] does
    not create that one. *)
Theorem extras_always_added c s n r cl props :
  truthy (docsPropName (opts c)) = true ->
  first_record r = VObj cl props -> pending s = S n ->
  exists extras rest,
    (step c s (Resolve r)).2 =
      Added (clientExtrasCollection (opts c)) (subscriptionId c) (VObj Object_ extras)
      :: rest
    /\ forall k, obj_get extras k =
                   if strict_ne_string k (docsPropName (opts c))
                      && negb (bool_decide (k = "__proto__"))
                   then obj_get props k else None.
Proof.
  intros Hname Hfirst Hp.
  exists (extras_of c (VObj cl props)).
  simpl. rewrite Hp. unfold settle. rewrite resume_resolve, diff_run.
  unfold snapshot, extras_events, extras_event. rewrite Hname, Hfirst. simpl.
  destruct (reconcile c _ (set_pending n s)) as [[s1 l] [e|[]]]; simpl;
    eexists; (split; [reflexivity | apply extras_of_get]).
Qed.

Lemma extras_always_added_witness :
  let s := (run faceted (started 1) [Resolve [facet [post 1 1] 5]; Signal 0]).1 in
  let r := [facet [post 1 1] 6] in
  iteration s = 2 /\
  truthy (docsPropName (opts faceted)) = true /\
  first_record r = facet [post 1 1] 6 /\ pending s = 1%nat /\
  exists extras rest,
    (step faceted s (Resolve r)).2 =
      Added (clientExtrasCollection (opts faceted)) (subscriptionId faceted)
        (VObj Object_ extras)
      :: rest
    /\ forall k, obj_get extras k =
                   if strict_ne_string k (docsPropName (opts faceted))
                      && negb (bool_decide (k = "__proto__"))
                   then obj_get [("items", VArr [post 1 1]); ("total", VNum (Int 6))] k
                   else None.
Proof.
  intros s r. do 4 (split; [reflexivity|]).
  exact (extras_always_added faceted s 0 r Object_ _ eq_refl eq_refl eq_refl).
Defined.

(** No recompute publishes the extras by [changed]: its calls of the sink are
    the extras event, which is an [added], and calls for documents. *)
Lemma extras_never_changed c s r :
  let '(s', l, res) := resume c (ret r) s in
  exists rest,
    (l = rest \/ l = extras_event c (first_record r) :: rest) /\
    Forall (doc_event c) rest.
Proof.
  rewrite resume_resolve.
  destruct (diff_any c r s) as (o' & i' & pre & l & res & -> & _ & _ & Hl & Hpre).
  unfold extras_events in Hpre.
  destruct res as [e|[]]; simpl; exists l; (split; [|done]);
    destruct Hpre as [->| ->]; simpl; auto;
    destruct (truthy _); simpl; auto.
Qed.

Lemma doc_event_not_rejected c l e : Forall (doc_event c) l -> Rejected e ∉ l.
Proof.
  intros H Hin. rewrite list.Forall_forall in H. by apply H in Hin.
Qed.

Lemma extras_events_not_rejected c r e : Rejected e ∉ extras_events c r.
Proof.
  unfold extras_events. destruct (truthy _).
  - rewrite list_elem_of_singleton. done.
  - apply not_elem_of_nil.
Qed.

Lemma visit_effects_elem c o i docs doc :
  doc ∈ docs ->
  Added (client c) (id_of doc) doc ∈ visit_effects c o i docs \/
  Changed (client c) (id_of doc) doc ∈ visit_effects c o i docs.
Proof.
  revert o. induction docs as [|d docs IH]; intros o Hin.
  - by apply elem_of_nil in Hin.
  - apply elem_of_cons in Hin as [->|Hin]; simpl.
    + unfold visit_effect. destruct (unknown _ _); [left | right]; apply list_elem_of_here.
    + destruct (IH (store o (key_of d) i) Hin); [left | right];
        by apply list_elem_of_further.
Qed.




(** A recompute that fails among the documents is not rolled back: what it
    had stamped and published stays, and the counter stays too. *)
Example partial_snapshot_kept :
  step faceted (started 1) (Resolve [facet [post 1 1; VNull] 5]) =
    (set_ids [("1", 1)] (set_pending 0 (started 1)),
     [Added (VStr "ReactiveAggregate") (VStr "s1")
        (VObj Object_ [("total", VNum (Int 5))]);
      Added (VStr "posts") (VNum (Int 1)) (post 1 1);
      Rejected (TunguskaReactiveAggregateError "Cannot read property '_id' of null")]).
Proof. reflexivity. Qed.

(** The first recompute stamps with 1, the value the constructor assigned,
    and leaves the counter at 2. *)
Lemma stamped_before_increment :
  step plain (started 1) (Resolve [post 1 10]) =
    (set_iteration 2 (set_ids [("1", 1)] (set_pending 0 (started 1))),
     [Added (VStr "posts") (VNum (Int 1)) (post 1 10)])
  /\ ¬ increments_first plain (started 1) [post 1 10].
Proof.
  split; [reflexivity|].
  intros H. specialize (H "1" 1 eq_refl). vm_compute in H. discriminate H.
Qed.

Lemma step_iteration_le c s i : iteration s <= iteration (step c s i).1.
Proof.
  destruct i as [n|h|r|e|]; simpl.
  - destruct (bool_decide _); [|done].
    destruct (debounce_returns c s) as (s' & l & Hd).
    pose proof (debounce_frame c s) as (_ & Hit & _). rewrite Hd in Hit.
    unfold settle. rewrite Hd. simpl in *. lia.
  - destruct (bool_decide _); [|done].
    unfold settle. rewrite update_run. simpl. by destruct (initializing s).
  - destruct (pending s) as [|n]; [done|].
    unfold settle. rewrite resume_resolve.
    destruct (diff_any c r (set_pending n s)) as (o' & i' & pre & l & res & -> & _ & -> & _).
    destruct res as [e|[]]; simpl; [done | apply incr_ge].
  - destruct (pending s) as [|n]; done.
  - unfold settle. by rewrite onStop_run.
Qed.

(** When the two loops complete, every stamp left is the counter. *)
Lemma reconcile_complete_stamps c docs s s1 l k v :
  reconcile c docs s = (s1, l, inr tt) ->
  obj_get (ids s1) k = Some v -> v = iteration s.
Proof.
  destruct docs as [| | | | |items|]; try done.
  unfold reconcile, forEach_value.
  destruct (forEach_visit_prefix c items s) as (n & res & Hrun & Hrec & Hlen).
  destruct res as [e|[]].
  - by rewrite (mbind_fail _ _ _ _ _ _ Hrun).
  - rewrite (mbind_run _ _ _ _ _ _ Hrun).
    unfold mbind, reads, ret. simpl. rewrite forEach_sweep. simpl.
    intros [= <- <-]. simpl. rewrite swept_stamp_get.
    repeat destruct (decide _); congruence.
Qed.

(** C8, amended.  The counter starts at 1 and no step of the subscription
    decreases it.  A recompute that completes has stamped its records with the
    value the counter had when it began and increments the counter at its end
    (by one, below 2^53); a recompute that fails leaves the counter as it
    was. *)
Theorem iteration_counter c s n r :
  pending s = S n ->
  let '(s', l) := step c s (Resolve r) in
  (((forall e, Rejected e ∉ l) /\ iteration s' = incr (iteration s) /\
    (iteration s < 2 ^ 53 -> iteration s' = iteration s + 1) /\
    (forall k v, obj_get (ids s') k = Some v -> v = iteration s))
   \/ ((exists e, Rejected e ∈ l) /\ iteration s' = iteration s))
  /\ (forall i, iteration s <= iteration (step c s i).1)
  /\ (forall sub0 collection0 pipeline0 options0 initial c0 s0 l0,
        ReactiveAggregate sub0 collection0 pipeline0 options0 initial
          = inr (c0, s0, l0) -> iteration s0 = 1).
Proof.
  intros Hp.
  assert (Hmono : forall i, iteration s <= iteration (step c s i).1)
    by apply step_iteration_le.
  assert (Hstart : forall sub0 collection0 pipeline0 options0 initial c0 s0 l0,
             ReactiveAggregate sub0 collection0 pipeline0 options0 initial
               = inr (c0, s0, l0) -> iteration s0 = 1).
  { intros ? ? ? ? ? c0 s0 l0 H. apply constructor_run in H as [-> _]. done. }
  simpl in *. rewrite Hp. unfold settle. rewrite resume_resolve, diff_run.
  destruct (snapshot c r) as [e|docs]; simpl.
  { split; [|done]. right. split; [|done]. eexists. apply list_elem_of_here. }
  destruct (reconcile_any c docs (set_pending n s)) as (o' & l & res & Hrun & _ & Hl).
  rewrite Hrun. destruct res as [e|[]]; simpl.
  - split; [|done]. right. split; [|done].
    eexists. rewrite elem_of_app. right. apply list_elem_of_here.
  - split; [|done]. left. split_and!; [| done | apply incr_succ |].
    + intros e. rewrite elem_of_app. intros [H|H].
      * by apply extras_events_not_rejected in H.
      * exact (doc_event_not_rejected c _ e Hl H).
    + intros k v. apply (reconcile_complete_stamps _ _ _ _ _ _ _ Hrun).
Qed.

Lemma iteration_counter_witness :
  pending (started 1) = 1%nat /\
  let '(s', l) := step plain (started 1) (Resolve [post 1 10]) in
  (((forall e, Rejected e ∉ l) /\ iteration s' = incr (iteration (started 1)) /\
    (iteration (started 1) < 2 ^ 53 -> iteration s' = iteration (started 1) + 1) /\
    (forall k v, obj_get (ids s') k = Some v -> v = iteration (started 1)))
   \/ ((exists e, Rejected e ∈ l) /\ iteration s' = iteration (started 1)))
  /\ (forall i, iteration (started 1) <= iteration (step plain (started 1) i).1)
  /\ (forall sub0 collection0 pipeline0 options0 initial c0 s0 l0,
        ReactiveAggregate sub0 collection0 pipeline0 options0 initial
          = inr (c0, s0, l0) -> iteration s0 = 1).
Proof.
  split; [reflexivity|].
  exact (iteration_counter plain (started 1) 0 [post 1 10] eq_refl).
Defined.

(** ** The debounce scheduler *)

(** Once [timer] holds a handle it holds it for good, and no signal sets a
    timeout any more, whether that first timeout is still armed or not. *)
Lemma debounce_once_set c s h :
  timer s = Some h ->
  let s' := (debounce c s).1.1 in
  timer s' = Some h /\ fresh s' = fresh s /\ (forall x, x ∈ armed s' -> x ∈ armed s).
Proof.
  destruct s as [ini o i n t a f p hs]. simpl. intros ->. run_monad.
  destruct ini; simpl; [done|].
  destruct (exceeds (incr n) (debounceCount (opts c))); simpl; [|done].
  split_and!; try done. intros x Hx.
  apply list_elem_of_In, filter_In in Hx as [Hx _]. by apply list_elem_of_In.
Qed.

(** The expiry of the timeout runs [update] and nothing else: the count of
    signals and [timer] stay as they are. *)
Lemma timeout_keeps_debounce_state c s h :
  let s' := (step c s (Timeout h)).1 in
  currentDebounceCount s' = currentDebounceCount s /\ timer s' = timer s.
Proof.
  simpl. destruct (bool_decide _); [|done].
  unfold settle. rewrite update_run. simpl. by destruct (initializing s).
Qed.

(** A signal that takes the count over the threshold resets the count,
    clears the timeout of [timer] and requests an aggregation at once. *)
Lemma debounce_exceeds c s :
  initializing s = false ->
  exceeds (incr (currentDebounceCount s)) (debounceCount (opts c)) = true ->
  let '(s', l, res) := debounce c s in
  l = [Aggregate (pipeline c) (aggregationOptions (opts c))]
  /\ currentDebounceCount s' = 0 /\ pending s' = S (pending s)
  /\ (forall h, timer s' = Some h -> h ∉ armed s').
Proof.
  destruct s as [ini o i n t a f p hs]. simpl. intros -> He. run_monad.
  assert (Hgone : forall (h : nat) l,
             h ∉ List.filter (fun h' => negb (h' =? h)%nat) l).
  { intros h l Hin. apply list_elem_of_In, filter_In in Hin as [_ Hin].
    by rewrite Nat.eqb_refl in Hin. }
  destruct t as [h0|], (gt0 (debounceCount (opts c))); simpl;
    rewrite He; simpl; split_and!; try done; intros h [= <-]; apply Hgone.
Qed.

(** With the default threshold of 0 every signal of a live observer requests
    an aggregation. *)
Lemma default_every_signal c s k :
  debounceCount (opts c) = Some 0 -> initializing s = false ->
  0 <= currentDebounceCount s -> handles s !! k = Some true ->
  (step c s (Signal k)).2 = [Aggregate (pipeline c) (aggregationOptions (opts c))].
Proof.
  intros Hc Hi Hn Hk. simpl. rewrite bool_decide_eq_true_2 by done.
  assert (He : exceeds (incr (currentDebounceCount s)) (debounceCount (opts c)) = true).
  { rewrite Hc. simpl. apply Z.ltb_lt. pose proof (incr_ge (currentDebounceCount s)).
    unfold incr in *. destruct (_ <? 2 ^ 53) eqn:E; [lia|].
    apply Z.ltb_ge in E. lia. }
  pose proof (debounce_exceeds c s Hi He) as H. unfold settle.
  destruct (debounce_returns c s) as (s' & l & Hd). rewrite Hd in H |- *.
  simpl. by destruct H as [-> _].
Qed.

(** With a threshold of 2: the first signal sets the timeout, the timeout
    expires and requests an aggregation, and then nothing is armed while the
    count of signals is still 1 and [timer] still holds the old handle.  The
    next signal sets no timeout and only counts. *)
Example stale_timer_blocks_debounce :
  debounceCount (opts batched) = Some 2 /\
  let '(s1, l1) :=
    run batched (started 1) [Resolve []; Signal 0; Timeout 0; Resolve []] in
  l1 = [Aggregate (VArr []) (VObj Object_ [])]
  /\ armed s1 = [] /\ pending s1 = 0%nat
  /\ currentDebounceCount s1 = 1 /\ timer s1 = Some 0%nat
  /\ let '(s2, l2) := step batched s1 (Signal 0) in
     l2 = [] /\ armed s2 = [] /\ pending s2 = 0%nat
     /\ currentDebounceCount s2 = 2.
Proof. vm_compute. repeat split. Qed.

(** C2. Once a timeout has been set, [timer] holds its handle for good.
    When that timeout is no longer armed, a signal of a live observer sets no
    new one, although no timeout is armed and the threshold is positive; if the
    signal does not take the count over the threshold either, it schedules
    nothing at all and only counts.  And the expiry of a timeout clears
    nothing: the count of signals and [timer] are after it what they were. *)
Theorem timer_never_rearmed c s h k :
  initializing s = false -> handles s !! k = Some true ->
  timer s = Some h -> armed s = [] -> gt0 (debounceCount (opts c)) = true ->
  let '(s', l) := step c s (Signal k) in
  armed s' = [] /\ timer s' = Some h
  /\ (exceeds (incr (currentDebounceCount s)) (debounceCount (opts c)) = false ->
      l = [] /\ pending s' = pending s /\
      currentDebounceCount s' = incr (currentDebounceCount s))
  /\ (forall h', let s'' := (step c s (Timeout h')).1 in
                 currentDebounceCount s'' = currentDebounceCount s /\
                 timer s'' = timer s).
Proof.
  intros Hi Hk Ht Ha Hgt.
  assert (Hexp := timeout_keeps_debounce_state c s).
  simpl in *. rewrite bool_decide_eq_true_2 by done.
  destruct s as [ini o i n t a f p hs]. simpl in *. subst.
  unfold settle. run_monad.
  destruct (exceeds (incr n) (debounceCount (opts c))); simpl; split_and!; done.
Qed.

Lemma timer_never_rearmed_witness :
  let s := (run batched (started 1) [Resolve []; Signal 0; Timeout 0; Resolve []]).1 in
  initializing s = false /\ handles s !! 0%nat = Some true /\
  timer s = Some 0%nat /\ armed s = [] /\
  gt0 (debounceCount (opts batched)) = true /\
  exceeds (incr (currentDebounceCount s)) (debounceCount (opts batched)) = false /\
  let '(s', l) := step batched s (Signal 0) in
  armed s' = [] /\ timer s' = Some 0%nat
  /\ (exceeds (incr (currentDebounceCount s)) (debounceCount (opts batched)) = false ->
      l = [] /\ pending s' = pending s /\
      currentDebounceCount s' = incr (currentDebounceCount s))
  /\ (forall h', let s'' := (step batched s (Timeout h')).1 in
                 currentDebounceCount s'' = currentDebounceCount s /\
                 timer s'' = timer s).
Proof.
  intros s. do 6 (split; [reflexivity|]).
  exact (timer_never_rearmed batched s 0 0 eq_refl eq_refl eq_refl eq_refl eq_refl).
Defined.

(** ** The life cycle *)

(** The observed cursor holds two documents while the observers are
    attached; their two signals are ignored, and the subscription is ready
    before its first documents are added. *)
Example ready_before_initial_snapshot :
  match ReactiveAggregate a_sub posts VUndefined VUndefined [2%nat] with
  | inr (c, s, l) => l ++ (run c s [Resolve [post 1 10; post 2 20]]).2
  | inl _ => []
  end =
  [Observe (find posts (VObj Object_ []) (VObj Object_ []));
   Aggregate (VArr []) (VObj Object_ []);
   Ready;
   Added (VStr "posts") (VNum (Int 1)) (post 1 10);
   Added (VStr "posts") (VNum (Int 2)) (post 2 20)].
Proof. reflexivity. Qed.

(** C6. The constructor calls [update] and then [sub.ready], but [update]
    only requests the aggregation before it returns.  So whatever signals
    arrive during the set-up, a successful construction attaches the
    observers, requests one aggregation and marks the subscription ready, in
    this order and with no other call of the sink, while [sub._ids] is still
    empty and the aggregation pending; the documents of the initial snapshot
    reach the sink afterwards, in the step in which the aggregation
    resolves. *)
Theorem ready_precedes_snapshot sub0 collection0 pipeline0 options0 initial c s l r docs :
  ReactiveAggregate sub0 collection0 pipeline0 options0 initial = inr (c, s, l) ->
  snapshot c r = inr (VArr docs) -> forallb is_record docs = true ->
  l = (Observe <$> observers (opts c)) ++
      [Aggregate (pipeline c) (aggregationOptions (opts c)); Ready]
  /\ ids s = [] /\ pending s = 1%nat
  /\ forall doc, doc ∈ docs ->
       Added (client c) (id_of doc) doc ∈ (step c s (Resolve r)).2 \/
       Changed (client c) (id_of doc) doc ∈ (step c s (Resolve r)).2.
Proof.
  intros Hcons Hsnap Hrec. apply constructor_run in Hcons as [-> ->].
  split_and!; try done. intros doc Hin.
  rewrite (step_resolve_records c (started _) 0 r docs eq_refl Hsnap Hrec).
  cbv zeta. simpl.
  destruct (visit_effects_elem c [] 1 docs doc Hin); [left | right];
    rewrite !elem_of_app; auto.
Qed.

Lemma ready_precedes_snapshot_witness :
  let docs := [post 1 10; post 2 20] in
  ReactiveAggregate a_sub posts VUndefined VUndefined [2%nat]
    = inr (plain, started 1,
           [Observe (find posts (VObj Object_ []) (VObj Object_ []));
            Aggregate (VArr []) (VObj Object_ []); Ready]) /\
  snapshot plain docs = inr (VArr docs) /\ forallb is_record docs = true /\
  [Observe (find posts (VObj Object_ []) (VObj Object_ []));
   Aggregate (VArr []) (VObj Object_ []); Ready]
    = (Observe <$> observers (opts plain)) ++
      [Aggregate (pipeline plain) (aggregationOptions (opts plain)); Ready]
  /\ ids (started 1) = [] /\ pending (started 1) = 1%nat
  /\ forall doc, doc ∈ docs ->
       Added (client plain) (id_of doc) doc ∈ (step plain (started 1) (Resolve docs)).2 \/
       Changed (client plain) (id_of doc) doc ∈ (step plain (started 1) (Resolve docs)).2.
Proof.
  intros docs. do 3 (split; [reflexivity|]).
  exact (ready_precedes_snapshot a_sub posts VUndefined VUndefined [2%nat]
           plain (started 1) _ docs docs eq_refl eq_refl eq_refl).
Defined.

(** Every stopped handle stays silent. *)
Lemma signals_after_stop c s ks :
  Forall (fun b => b = false) (handles s) ->
  run c s (Signal <$> ks) = (s, []).
Proof.
  intros H. induction ks as [|k ks IH]; csimpl; [done|].
  rewrite bool_decide_eq_false_2; [by rewrite IH|].
  intros Hk. rewrite list.Forall_forall in H.
  by specialize (H _ (list_elem_of_lookup_2 _ _ _ Hk)).
Qed.

(** A timeout that was armed before the stop still expires afterwards, and
    its recompute calls the sink and rewrites [sub._ids]. *)
Lemma timeout_survives_stop :
  let s := (run batched (started 1) [Resolve []; Signal 0]).1 in
  armed s = [0%nat]
  /\ run batched (step batched s Stop).1 [Timeout 0; Resolve [post 1 1]] =
       (set_armed [] (set_iteration 3 (set_ids [("1", 2)] (step batched s Stop).1)),
        [Aggregate (VArr []) (VObj Object_ []);
         Added (VStr "posts") (VNum (Int 1)) (post 1 1)])
  /\ ¬ stop_cancels batched s.
Proof.
  intros s. split; [reflexivity|]. split; [reflexivity|].
  intros H. specialize (H [Timeout 0%nat; Resolve [post 1 1]]).
  vm_compute in H. destruct H as [H _]. discriminate H.
Qed.

(** C7, amended.  The stop hook stops every observer handle and touches
    nothing else; after it no signal arrives, so no signal starts a
    recompute, calls the sink or changes the state. *)
Theorem stop_detaches c s ks :
  let '(s1, l1) := step c s Stop in
  l1 = StopHandle <$> seq 0 (length (handles s))
  /\ s1 = set_handles (replicate (length (handles s)) false) s
  /\ run c s1 (Signal <$> ks) = (s1, []).
Proof.
  simpl. unfold settle. rewrite onStop_run. split_and!; try done.
  apply signals_after_stop. simpl.
  apply list.Forall_forall. intros b Hb. by apply elem_of_replicate_inv in Hb.
Qed.

(** ** The checks of the constructor *)

Lemma check_cursors_ok i cursors :
  check_cursors i cursors = inr tt ->
  forall cursor, cursor ∈ cursors -> is_cursor cursor = inr true.
Proof.
  revert i. induction cursors as [|cur rest IH]; intros i; simpl.
  - intros _ cursor H. by apply elem_of_nil in H.
  - destruct (is_cursor cur) as [e|[]] eqn:E; simpl; try done.
    intros H cursor [->|Hin]%elem_of_cons; eauto.
Qed.








(** Each kind of refusal, with its message. *)
Example refuses_context :
  ReactiveAggregate (VObj Object_ [("ready", VBool true)]) posts VUndefined VUndefined []
  = fail ("unexpected context - did you set " +:+ quoted "sub" +:+ " to "
          +:+ quoted "this" +:+ "?").
Proof. reflexivity. Qed.

Example refuses_collection :
  ReactiveAggregate a_sub VUndefined VUndefined VUndefined []
  = fail (quoted "collection" +:+ " must be a Mongo.Collection").
Proof. reflexivity. Qed.

Example refuses_pipeline :
  ReactiveAggregate a_sub posts (VObj Object_ []) VUndefined []
  = fail (quoted "pipeline" +:+ " must be an array").
Proof. reflexivity. Qed.

Example refuses_options :
  ReactiveAggregate a_sub posts VUndefined (VStr "fast") []
  = fail (quoted "options" +:+ " must be an object").
Proof. reflexivity. Qed.

Example refuses_observer :
  ReactiveAggregate a_sub posts VUndefined
    (option_ "observers" (VArr [VObj Object_ []])) []
  = fail (quoted "options.observers[0]" +:+ " must be a cursor").
Proof. reflexivity. Qed.

Example refuses_client_collection :
  ReactiveAggregate a_sub posts VUndefined
    (option_ "clientCollection" (VNum (Int 7))) []
  = fail (quoted "options.clientCollection" +:+ " must be a string").
Proof. reflexivity. Qed.

Example refuses_negative_count :
  ReactiveAggregate a_sub posts VUndefined
    (option_ "debounceCount" (VNum (Int (-1)))) []
  = fail (quoted "options.debounceCount" +:+ " must be a positive integer").
Proof. reflexivity. Qed.

Example refuses_textual_delay :
  ReactiveAggregate a_sub posts VUndefined
    (option_ "debounceDelay" (VStr "100")) []
  = fail (quoted "options.debounceDelay" +:+ " must be a positive integer").
Proof. reflexivity. Qed.

(** The number -5e-7 prints in exponent notation, [parseInt] makes it -5,
    and it is refused; 1e21 is accepted, as 1. *)
Example refuses_tiny_negative_count :
  ReactiveAggregate a_sub posts VUndefined
    (option_ "debounceCount" (VNum (Dec true 0 "0000005"))) []
  = fail (quoted "options.debounceCount" +:+ " must be a positive integer").
Proof. reflexivity. Qed.

Example huge_count_read_as_one :
  debounceCount (opts (construct (option_ "debounceCount" (VNum (Int (10 ^ 21))))))
  = Some 1.
Proof. reflexivity. Qed.

(** * Further properties *)

(** ** Snapshots at the edges *)

Lemma obj_get_all_None {A} (o : obj A) : (forall k, obj_get o k = None) -> o = [].
Proof.
  destruct o as [|[k v] o]; [done|]. intros H. specialize (H k). simpl in H.
  by rewrite decide_True in H.
Qed.

Lemma no_elements {A} (l : list A) : (forall x, x ∉ l) -> l = [].
Proof.
  destruct l as [|x l]; [done|]. intros H. destruct (H x). apply list_elem_of_here.
Qed.





Lemma settled_get s k : settled s -> obj_get (ids s) k ≠ Some (iteration s).
Proof.
  intros H Hk. unfold settled in H. rewrite list.Forall_forall in H.
  by apply (H _ (obj_get_elem _ _ _ Hk)).
Qed.

(** X1. An empty snapshot removes whatever was published: from a settled,
    well-formed state every key of [sub._ids] is removed, once and in the
    order of [Object.keys], and [sub._ids] is empty afterwards. *)
Theorem empty_snapshot_removes_all c s n r :
  wf s -> settled s -> pending s = S n -> snapshot c r = inr (VArr []) ->
  step c s (Resolve r) =
    (set_iteration (incr (iteration s)) (set_ids [] (set_pending n s)),
     extras_events c r ++
     ((fun k => Removed (client c) (VStr k)) <$> own_keys (ids s))).
Proof.
  intros Hwf Hs Hp Hsnap.
  rewrite (step_resolve_records c s n r [] Hp Hsnap eq_refl). cbv zeta. simpl.
  assert (Hnd : NoDup (own_keys (ids s))) by apply own_keys_NoDup, Hwf.
  rewrite (stale_filter _ _ _ Hnd).
  assert (Hall : filter (fun k => obj_get (ids s) k ≠ Some (iteration s))
                   (own_keys (ids s)) = own_keys (ids s)).
  { clear Hnd. induction (own_keys (ids s)) as [|k ks IH]; [done|].
    rewrite filter_cons_True by (by apply settled_get). by rewrite IH. }
  rewrite Hall. do 3 f_equal. apply obj_get_all_None. intros k.
  rewrite swept_get. destruct (decide _) as [|Hn]; [done|].
  destruct (obj_get (ids s) k) as [v|] eqn:E; [|done].
  destruct Hn. split; [|by rewrite <- E; apply settled_get].
  apply own_keys_elem. by eapply obj_get_Some_elem.
Qed.

Lemma empty_snapshot_removes_all_witness :
  let s := set_ids [("b", 1); ("2", 1); ("1", 1)] (set_iteration 2 (started 1)) in
  wf s /\ settled s /\ pending s = 1%nat /\ snapshot plain [] = inr (VArr []) /\
  own_keys (ids s) = ["1"; "2"; "b"] /\
  step plain s (Resolve []) =
    (set_iteration (incr (iteration s)) (set_ids [] (set_pending 0 s)),
     extras_events plain [] ++
     ((fun k => Removed (client plain) (VStr k)) <$> own_keys (ids s))).
Proof.
  intros s.
  assert (Hwf : wf s) by (refine (bool_decide_unpack (wf s) _); vm_compute; exact I).
  assert (Hs : settled s) by (repeat constructor; simpl; lia).
  split_and!; [exact Hwf | exact Hs | reflexivity | reflexivity | reflexivity |].
  exact (empty_snapshot_removes_all plain s 0 [] Hwf Hs eq_refl eq_refl).
Defined.





(** ** Recomputes that fail *)







(** X5. With [docsPropName] configured, an aggregation that returns no
    record (or [null] for the first) fails the recompute before anything is
    published: the promise is rejected with the tagged error, the sink is not
    called and neither [sub._ids] nor the counter changes. *)
Theorem no_first_record c s n r :
  truthy (docsPropName (opts c)) = true -> is_record (first_record r) = false ->
  pending s = S n ->
  exists m,
    step c s (Resolve r) =
      (set_pending n s, [Rejected (TunguskaReactiveAggregateError m)]).
Proof.
  intros Hname Hfirst Hp. simpl. rewrite Hp. unfold settle.
  rewrite resume_resolve, diff_run. unfold snapshot. rewrite Hname.
  destruct (get_not_record _ (to_string (docsPropName (opts c))) Hfirst) as [e ->].
  by eexists.
Qed.

Lemma no_first_record_witness :
  truthy (docsPropName (opts faceted)) = true /\
  is_record (first_record []) = false /\ pending (started 1) = 1%nat /\
  exists m,
    step faceted (started 1) (Resolve []) =
      (set_pending 0 (started 1), [Rejected (TunguskaReactiveAggregateError m)]).
Proof.
  do 3 (split; [reflexivity|]).
  exact (no_first_record faceted (started 1) 0 [] eq_refl eq_refl eq_refl).
Defined.

(** X6. When the property named by [docsPropName] does not hold an array
    (it is missing from the first record, say), the extras are published all
    the same and then the recompute fails on [docs.forEach]: no document is
    touched, [sub._ids] and the counter stay as they are. *)
Theorem documents_not_an_array c s n r docs :
  snapshot c r = inr docs -> instanceof_Array docs = false -> pending s = S n ->
  exists m,
    step c s (Resolve r) =
      (set_pending n s,
       extras_events c r ++ [Rejected (TunguskaReactiveAggregateError m)]).
Proof.
  intros Hsnap Harr Hp. simpl. rewrite Hp. unfold settle.
  rewrite resume_resolve, diff_run, Hsnap.
  destruct docs; try done; simpl; eexists; by rewrite app_nil_r.
Qed.

Lemma documents_not_an_array_witness :
  let r := [VObj Object_ [("total", VNum (Int 5))]] in
  snapshot faceted r = inr VUndefined /\ instanceof_Array VUndefined = false /\
  pending (started 1) = 1%nat /\
  extras_events faceted r =
    [Added (VStr "ReactiveAggregate") (VStr "s1")
       (VObj Object_ [("total", VNum (Int 5))])] /\
  exists m,
    step faceted (started 1) (Resolve r) =
      (set_pending 0 (started 1),
       extras_events faceted r ++ [Rejected (TunguskaReactiveAggregateError m)]).
Proof.
  intros r. do 4 (split; [reflexivity|]).
  exact (documents_not_an_array faceted (started 1) 0 r VUndefined
           eq_refl eq_refl eq_refl).
Defined.

(** ** Bursts of signals and the one timeout *)

Lemma run_app c s a b :
  run c s (a ++ b) =
    (let '(s1, l1) := run c s a in
     let '(s2, l2) := run c s1 b in (s2, l1 ++ l2)).
Proof.
  revert s. induction a as [|i a IH]; intros s; simpl.
  - by destruct (run c s b).
  - destruct (step c s i) as [s1 l1]. rewrite IH.
    destruct (run c s1 a) as [s2 l2]. destruct (run c s2 b) as [s3 l3].
    by rewrite app_assoc.
Qed.

(** One signal of a live observer, in one piece. *)
Lemma signal_run c s k :
  initializing s = false -> handles s !! k = Some true ->
  step c s (Signal k) =
    (let s1 := arm c s in
     let n := incr (currentDebounceCount s) in
     if exceeds n (debounceCount (opts c))
     then (set_pending (S (pending s)) (disarm (set_currentDebounceCount 0 s1)),
           [Aggregate (pipeline c) (aggregationOptions (opts c))])
     else (set_currentDebounceCount n s1, [])).
Proof.
  intros Hi Hk. simpl. rewrite bool_decide_eq_true_2 by done.
  destruct s as [ini o i n t a f p hs]. simpl in *. subst.
  unfold settle, arm, disarm. run_monad.
  destruct t, (gt0 (debounceCount (opts c))); simpl;
    destruct (exceeds (incr n) (debounceCount (opts c))); reflexivity.
Qed.

Lemma arm_tracked c s : timer_tracked s -> timer_tracked (arm c s).
Proof.
  unfold timer_tracked, arm. intros H.
  destruct (timer s) as [h0|] eqn:Ht; simpl; [by rewrite Ht|].
  destruct (gt0 _); simpl; [|by rewrite Ht].
  intros h [Hin|Hin]%elem_of_app.
  - apply H in Hin. congruence.
  - apply list_elem_of_singleton in Hin. by subst.
Qed.

Lemma disarm_tracked s : timer_tracked s -> armed (disarm s) = [].
Proof.
  unfold timer_tracked, disarm. intros H. apply no_elements. intros h Hin.
  destruct (timer s) as [h0|] eqn:Ht; simpl in Hin.
  - apply list_elem_of_In, filter_In in Hin as [Hin Hne].
    apply list_elem_of_In, H in Hin. injection Hin as ->.
    by rewrite Nat.eqb_refl in Hne.
  - apply H in Hin. congruence.
Qed.

(** Signals that keep the count at or below the threshold only count. *)
Lemma signals_below c k N m s :
  debounceCount (opts c) = Some N -> N < 2 ^ 53 ->
  initializing s = false -> handles s !! k = Some true ->
  0 <= currentDebounceCount s -> currentDebounceCount s + Z.of_nat m <= N ->
  exists s',
    run c s (replicate m (Signal k)) = (s', [])
    /\ initializing s' = false /\ handles s' = handles s
    /\ currentDebounceCount s' = currentDebounceCount s + Z.of_nat m
    /\ pending s' = pending s /\ ids s' = ids s /\ iteration s' = iteration s
    /\ (timer_tracked s -> timer_tracked s').
Proof.
  intros HN Hbig. revert s. induction m as [|m IH]; intros s Hi Hk H0 Hle.
  - exists s. simpl. split_and!; try done. lia.
  - rewrite replicate_S. cbn [run]. rewrite (signal_run c s k Hi Hk). cbv zeta.
    assert (Hincr : incr (currentDebounceCount s) = currentDebounceCount s + 1)
      by (apply incr_succ; lia).
    rewrite Hincr, HN. simpl.
    rewrite (proj2 (Z.ltb_ge _ _)) by lia.
    set (s1 := set_currentDebounceCount (currentDebounceCount s + 1) (arm c s)).
    assert (Hframe : initializing s1 = false /\ handles s1 = handles s /\
                     pending s1 = pending s /\ ids s1 = ids s /\
                     iteration s1 = iteration s).
    { unfold s1, arm. destruct (_ && _); simpl; auto. }
    destruct Hframe as (Hi1 & Hh1 & Hp1 & Hids1 & Hit1).
    destruct (IH s1) as (s' & Hrun & Hi' & Hh' & Hc' & Hp' & Hids' & Hit' & Ht');
      [done | by rewrite Hh1 | simpl; lia | simpl; lia |].
    exists s'. rewrite Hrun. simpl in Hc'.
    split; [done|]. split; [done|]. split; [congruence|].
    split; [lia|]. split; [congruence|]. split; [congruence|]. split; [congruence|].
    intros Ht. apply Ht'. intros h Hin. by apply (arm_tracked c s Ht).
Qed.

(** X7. With a threshold of [N], the signals of a live observer that follow
    a reset of the count request an aggregation at the [N+1]-th and at none
    before it; the count is then back at 0, and the timeout that the first of
    them may have set is no longer armed, so it cannot start a second
    recompute later.  Neither [sub._ids] nor the counter is touched. *)
Theorem burst_requests_once c k N s :
  debounceCount (opts c) = Some N -> 0 <= N < 2 ^ 53 ->
  initializing s = false -> handles s !! k = Some true ->
  currentDebounceCount s = 0 -> timer_tracked s ->
  let '(s', l) := run c s (replicate (S (Z.to_nat N)) (Signal k)) in
  l = [Aggregate (pipeline c) (aggregationOptions (opts c))]
  /\ (run c s (replicate (Z.to_nat N) (Signal k))).2 = []
  /\ currentDebounceCount s' = 0 /\ pending s' = S (pending s)
  /\ armed s' = []
  /\ ids s' = ids s /\ iteration s' = iteration s.
Proof.
  intros HN [HN0 Hbig] Hi Hk Hc Ht.
  destruct (signals_below c k N (Z.to_nat N) s HN Hbig Hi Hk)
    as (s1 & Hrun & Hi1 & Hh1 & Hc1 & Hp1 & Hids1 & Hit1 & Ht1); [lia | lia |].
  rewrite replicate_S_end, run_app, Hrun. cbn [run].
  rewrite (signal_run c s1 k Hi1) by (by rewrite Hh1). cbv zeta.
  assert (Hincr : incr (currentDebounceCount s1) = N + 1)
    by (rewrite incr_succ; lia).
  rewrite Hincr, HN. simpl. rewrite (proj2 (Z.ltb_lt _ _)) by lia. simpl.
  assert (Hframe : forall s0 : state,
             currentDebounceCount (disarm (set_currentDebounceCount 0 s0)) = 0
             /\ ids (disarm (set_currentDebounceCount 0 s0)) = ids s0
             /\ iteration (disarm (set_currentDebounceCount 0 s0)) = iteration s0).
  { intros s0. unfold disarm. simpl. by destruct (timer s0). }
  assert (Harm : ids (arm c s1) = ids s1 /\ iteration (arm c s1) = iteration s1).
  { unfold arm. by destruct (_ && _). }
  destruct (Hframe (arm c s1)) as (Hc0 & Hids0 & Hit0). destruct Harm as [Ha1 Ha2].
  split; [done|]. split; [done|]. split; [done|]. split; [congruence|].
  split; [|split; congruence].
  apply disarm_tracked. intros h Hin. by apply (arm_tracked c s1 (Ht1 Ht)).
Qed.

Lemma burst_requests_once_witness :
  let s := set_pending 0 (started 1) in
  debounceCount (opts batched) = Some 2 /\ 0 <= 2 < 2 ^ 53 /\
  initializing s = false /\ handles s !! 0%nat = Some true /\
  currentDebounceCount s = 0 /\ timer_tracked s /\
  let '(s', l) := run batched s (replicate (S (Z.to_nat 2)) (Signal 0)) in
  l = [Aggregate (pipeline batched) (aggregationOptions (opts batched))]
  /\ (run batched s (replicate (Z.to_nat 2) (Signal 0))).2 = []
  /\ currentDebounceCount s' = 0 /\ pending s' = S (pending s)
  /\ armed s' = []
  /\ ids s' = ids s /\ iteration s' = iteration s.
Proof.
  intros s.
  assert (Ht : timer_tracked s) by (intros h Hin; by apply elem_of_nil in Hin).
  assert (HN : 0 <= 2 < 2 ^ 53) by lia.
  split_and!; [reflexivity | lia | lia | reflexivity | reflexivity | reflexivity | exact Ht |].
  exact (burst_requests_once batched 0%nat 2 s eq_refl HN eq_refl eq_refl eq_refl Ht).
Defined.

Lemma debounce_one_timeout c s : one_timeout s -> one_timeout (debounce c s).1.1.
Proof.
  destruct s as [ini o i n t a f p hs]. unfold one_timeout. simpl.
  intros [(-> & -> & ->)|(-> & -> & Ha)]; run_monad; destruct ini; simpl; auto.
  - destruct (gt0 (debounceCount (opts c))); simpl;
      destruct (exceeds (incr n) (debounceCount (opts c))); simpl; auto.
  - destruct (exceeds (incr n) (debounceCount (opts c))); simpl; [|auto].
    destruct Ha as [-> | ->]; simpl; auto.
Qed.

Lemma step_one_timeout c s i : one_timeout s -> one_timeout (step c s i).1.
Proof.
  intros H. destruct i as [k|h|r|e|]; simpl.
  - destruct (bool_decide _); [|done].
    pose proof (debounce_one_timeout c s H) as H'.
    unfold settle. by destruct (debounce c s) as [[s' l] [e|[]]].
  - destruct (bool_decide (h ∈ armed s)) eqn:Hh; [|done].
    apply bool_decide_eq_true in Hh.
    unfold settle. rewrite update_run. simpl.
    assert (Hone : one_timeout
              (set_armed (List.filter (fun h' => negb (h' =? h)%nat) (armed s)) s)).
    { unfold one_timeout in *. simpl.
      destruct H as [(Ht & Hf & Ha)|(Ht & Hf & [Ha|Ha])]; rewrite Ha in *.
      - by apply elem_of_nil in Hh.
      - by apply elem_of_nil in Hh.
      - apply list_elem_of_singleton in Hh as ->. simpl. auto. }
    by destruct (initializing s).
  - destruct (pending s) as [|n]; [done|].
    unfold settle. rewrite resume_resolve.
    destruct (diff_any c r (set_pending n s)) as (o' & i' & pre & l & res & -> & _).
    by destruct res as [e|[]].
  - by destruct (pending s).
  - unfold settle. by rewrite onStop_run.
Qed.

(** X8. A subscription sets a timeout at most once in its life: whatever
    the host does after the construction, [setTimeout] has been called at most
    once and at most one timeout is armed. *)
Theorem at_most_one_timeout sub0 collection0 pipeline0 options0 initial c s l inputs :
  ReactiveAggregate sub0 collection0 pipeline0 options0 initial = inr (c, s, l) ->
  let s' := (run c s inputs).1 in
  (fresh s' <= 1)%nat /\ (length (armed s') <= 1)%nat.
Proof.
  intros Hcons. apply constructor_run in Hcons as [-> _].
  assert (Hrun : forall s0, one_timeout s0 -> one_timeout (run c s0 inputs).1).
  { induction inputs as [|i inputs IH]; intros s0 H0; simpl; [done|].
    pose proof (step_one_timeout c s0 i H0) as H1.
    destruct (step c s0 i) as [s1 l1]. specialize (IH s1 H1).
    by destruct (run c s1 inputs). }
  specialize (Hrun (started (length (observers (opts c))))
                (or_introl (conj eq_refl (conj eq_refl eq_refl)))).
  simpl. destruct Hrun as [(_ & -> & ->)|(_ & -> & [-> | ->])]; simpl; lia.
Qed.

Lemma at_most_one_timeout_witness :
  let inputs := [Resolve []; Signal 0; Timeout 0; Signal 0; Signal 0; Signal 0] in
  ReactiveAggregate a_sub posts VUndefined
    (VObj Object_ [("debounceCount", VNum (Int 2)); ("debounceDelay", VNum (Int 100))])
    [] = inr (batched, started 1,
              [Observe (find posts (VObj Object_ []) (VObj Object_ []));
               Aggregate (VArr []) (VObj Object_ []); Ready]) /\
  let s' := (run batched (started 1) inputs).1 in
  (fresh s' <= 1)%nat /\ (length (armed s') <= 1)%nat.
Proof.
  intros inputs. split; [reflexivity|].
  exact (at_most_one_timeout a_sub posts VUndefined
           (VObj Object_ [("debounceCount", VNum (Int 2));
                          ("debounceDelay", VNum (Int 100))])
           [] batched (started 1)
           [Observe (find posts (VObj Object_ []) (VObj Object_ []));
            Aggregate (VArr []) (VObj Object_ []); Ready]
           inputs eq_refl).
Defined.

(** ** What a subscription does after its construction, and what not *)

Lemma debounce_effects c s :
  (debounce c s).1.2 = [] \/
  (debounce c s).1.2 = [Aggregate (pipeline c) (aggregationOptions (opts c))].
Proof.
  destruct s as [ini o i n t a f p hs]. run_monad.
  destruct ini; simpl; [auto|].
  destruct t, (gt0 (debounceCount (opts c))); simpl;
    destruct (exceeds (incr n) (debounceCount (opts c))); simpl; auto.
Qed.

Lemma doc_event_later c l :
  Forall (doc_event c) l -> Forall (fun e => ¬ of_constructor e) l.
Proof.
  intros H. eapply list.Forall_impl; [exact H|]. intros [] H'; simpl in *; tauto.
Qed.

Lemma step_later c s i : Forall (fun e => ¬ of_constructor e) (step c s i).2.
Proof.
  destruct i as [k|h|r|e|]; simpl.
  - destruct (bool_decide _); [|constructor].
    pose proof (debounce_effects c s) as H. unfold settle.
    destruct (debounce_returns c s) as (s' & l & Hd). rewrite Hd in H |- *. simpl in *.
    destruct H as [-> | ->]; repeat constructor; simpl; tauto.
  - destruct (bool_decide _); [|constructor].
    unfold settle. rewrite update_run. simpl.
    destruct (initializing s); repeat constructor; simpl; tauto.
  - destruct (pending s) as [|n]; [constructor|].
    unfold settle. rewrite resume_resolve.
    destruct (diff_any c r (set_pending n s))
      as (o' & i' & pre & l & res & -> & _ & _ & Hl & Hpre).
    assert (Hp : Forall (fun e => ¬ of_constructor e) pre).
    { destruct Hpre as [-> | ->]; [constructor|].
      unfold extras_events. destruct (truthy _); repeat constructor. simpl. tauto. }
    apply doc_event_later in Hl.
    destruct res as [e|[]]; simpl; rewrite ?Forall_app; split_and?; try done.
    repeat constructor. simpl. tauto.
  - destruct (pending s) as [|n]; [constructor|]. repeat constructor. simpl. tauto.
  - unfold settle. rewrite onStop_run. simpl.
    induction (seq 0 (length (handles s))); csimpl; constructor; [simpl; tauto | done].
Qed.

(** X9. Only the constructor marks the subscription ready and attaches
    observers: whatever the host does afterwards, no step of the subscription
    calls [sub.ready] or [observeChanges] again. *)
Theorem ready_and_observe_only_once c s inputs :
  Forall (fun e => ¬ of_constructor e) (run c s inputs).2.
Proof.
  revert s. induction inputs as [|i inputs IH]; intros s; simpl; [constructor|].
  pose proof (step_later c s i) as H1. destruct (step c s i) as [s1 l1].
  specialize (IH s1). destruct (run c s1 inputs) as [s2 l2]. simpl in *.
  apply Forall_app. done.
Qed.

Lemma quiet_step c s i :
  quiet s ->
  let '(s', l) := step c s i in
  quiet s' /\ ids s' = ids s /\ iteration s' = iteration s /\
  Forall (fun e => exists k, e = StopHandle k) l.
Proof.
  intros (Hh & Ha & Hp). destruct i as [k|h|r|e|]; simpl.
  - rewrite bool_decide_eq_false_2; [by repeat split|].
    intros Hk. rewrite list.Forall_forall in Hh.
    by specialize (Hh _ (list_elem_of_lookup_2 _ _ _ Hk)).
  - rewrite Ha. rewrite bool_decide_eq_false_2; [by repeat split|]. apply not_elem_of_nil.
  - rewrite Hp. by repeat split.
  - rewrite Hp. by repeat split.
  - unfold settle. rewrite onStop_run. unfold quiet. simpl. split_and!; try done.
    + apply list.Forall_forall. intros b Hb. by apply elem_of_replicate_inv in Hb.
    + induction (seq 0 (length (handles s))); csimpl; constructor; [by eexists | done].
Qed.

(** X10. Once every observer handle is stopped, no timeout is armed and no
    aggregation is pending, the subscription is at rest for good: whatever
    arrives, it requests no aggregation, does not call the sink and leaves
    [sub._ids] and the counter alone; at most it stops its handles again. *)
Theorem at_rest_after_stop c s inputs :
  quiet s ->
  let '(s', l) := run c s inputs in
  quiet s' /\ ids s' = ids s /\ iteration s' = iteration s /\
  Forall (fun e => exists k, e = StopHandle k) l.
Proof.
  revert s. induction inputs as [|i inputs IH]; intros s Hq; simpl.
  - split; [exact Hq|]. split; [done|]. split; [done|]. constructor.
  - pose proof (quiet_step c s i Hq) as H1. destruct (step c s i) as [s1 l1].
    destruct H1 as (Hq1 & Hids1 & Hit1 & Hl1).
    specialize (IH s1 Hq1). destruct (run c s1 inputs) as [s2 l2].
    destruct IH as (Hq2 & Hids2 & Hit2 & Hl2).
    split_and!; [done | congruence | congruence | by apply Forall_app].
Qed.

Lemma at_rest_after_stop_witness :
  let s := (run plain (started 1) [Resolve [post 1 10]; Stop]).1 in
  let inputs := [Signal 0; Timeout 0; Resolve [post 2 20]; Stop; Signal 0] in
  quiet s /\ ids s = [("1", 1)] /\
  let '(s', l) := run plain s inputs in
  quiet s' /\ ids s' = ids s /\ iteration s' = iteration s /\
  Forall (fun e => exists k, e = StopHandle k) l.
Proof.
  intros s inputs.
  assert (Hq : quiet s).
  { split_and!; [|reflexivity|reflexivity]. repeat constructor. }
  split; [exact Hq|]. split; [reflexivity|].
  exact (at_rest_after_stop plain s inputs Hq).
Defined.

(** X11. Every state a subscription can reach is well formed: [sub._ids]
    holds each key once and never the key [__proto__], the counter is at
    least 1, and every stamp lies between 1 and the counter.  So
    [!sub._ids[id]] is true exactly for the keys that [sub._ids] does not
    hold and that name no member of [Object.prototype]. *)
Theorem reachable_well_formed sub0 collection0 pipeline0 options0 initial c s l inputs :
  ReactiveAggregate sub0 collection0 pipeline0 options0 initial = inr (c, s, l) ->
  let s' := (run c s inputs).1 in
  wf s' /\ ("__proto__" ∉ (ids s').*1)
  /\ forall k, unknown (ids s') k = true
               <-> (k ∉ (ids s').*1) /\ prototype_member k = false.
Proof.
  intros Hcons. apply constructor_run in Hcons as [-> _].
  pose proof (wf_run c _ inputs (wf_started (length (observers (opts c))))) as Hwf.
  split; [exact Hwf|]. split.
  { apply run_no_proto. simpl. apply not_elem_of_nil. }
  intros k. unfold unknown.
  destruct (obj_get _ k) as [v|] eqn:E.
  - pose proof (wf_stamps _ _ _ Hwf E) as Hv.
    apply obj_get_Some_elem in E. rewrite Z.eqb_eq. split; [lia | by intros [? _]].
  - apply obj_get_None in E. rewrite negb_true_iff. by split; [|intros [_ ?]].
Qed.

Lemma reachable_well_formed_witness :
  let inputs := [Resolve [post 1 10; post 2 20]; Signal 0; Resolve [post 2 21]] in
  ReactiveAggregate a_sub posts VUndefined VUndefined []
    = inr (plain, started 1,
           [Observe (find posts (VObj Object_ []) (VObj Object_ []));
            Aggregate (VArr []) (VObj Object_ []); Ready]) /\
  let s' := (run plain (started 1) inputs).1 in
  wf s' /\ ("__proto__" ∉ (ids s').*1)
  /\ forall k, unknown (ids s') k = true
               <-> (k ∉ (ids s').*1) /\ prototype_member k = false.
Proof.
  intros inputs. split; [reflexivity|].
  exact (reachable_well_formed a_sub posts VUndefined VUndefined [] plain (started 1)
           [Observe (find posts (VObj Object_ []) (VObj Object_ []));
            Aggregate (VArr []) (VObj Object_ []); Ready]
           inputs eq_refl).
Defined.

(** X12. The signals that arrive while the constructor attaches the
    observers (the documents already in the observed cursors) make no
    difference at all: the instance, the state and the calls made are the same
    whatever their number. *)
Theorem setup_signals_ignored sub0 collection0 pipeline0 options0 initial initial' :
  ReactiveAggregate sub0 collection0 pipeline0 options0 initial =
  ReactiveAggregate sub0 collection0 pipeline0 options0 initial'.
Proof.
  unfold ReactiveAggregate. destruct (check _ _ _ _) as [e|lo]; simpl; [done|].
  by rewrite (wire_initial _ initial initial').
Qed.

(** ** Numbers through [parseInt] *)

Lemma digit_char d : (d < 10)%N -> digit (pretty_N_char d) = Some d.
Proof.
  intros H.
  assert (d = 0 ∨ d = 1 ∨ d = 2 ∨ d = 3 ∨ d = 4 ∨ d = 5 ∨ d = 6 ∨ d = 7 ∨ d = 8
          ∨ d = 9)%N as Hd by lia.
  repeat (destruct Hd as [-> | Hd]; [reflexivity|]). by subst.
Qed.

Lemma digits_pretty_go x s : digits 0 (pretty_N_go x s) = digits x s.
Proof.
  revert s. induction (N.lt_wf_0 x) as [x _ IH]; intros s.
  assert (x = 0 ∨ 0 < x)%N as [->|Hx] by lia; [done|].
  rewrite pretty_N_go_step by done. rewrite IH by (by apply N.div_lt).
  simpl. rewrite digit_char by (by apply N.mod_lt).
  f_equal. pose proof (N.div_mod x 10). lia.
Qed.

Lemma leading_digits_pretty_go x s :
  leading_digits (pretty_N_go x s) = pretty_N_go x (leading_digits s).
Proof.
  revert s. induction (N.lt_wf_0 x) as [x _ IH]; intros s.
  assert (x = 0 ∨ 0 < x)%N as [->|Hx] by lia; [done|].
  rewrite (pretty_N_go_step x s), (pretty_N_go_step x (leading_digits s)) by done.
  rewrite IH by (by apply N.div_lt).
  simpl. by rewrite digit_char by (by apply N.mod_lt).
Qed.

Lemma pretty_go_append x s t : pretty_N_go x s +:+ t = pretty_N_go x (s +:+ t).
Proof.
  revert s. induction (N.lt_wf_0 x) as [x _ IH]; intros s.
  assert (x = 0 ∨ 0 < x)%N as [->|Hx] by lia; [done|].
  rewrite (pretty_N_go_step x s), (pretty_N_go_step x (s +:+ t)) by done.
  by rewrite IH by (by apply N.div_lt).
Qed.

Lemma pretty_go_head x s :
  (0 < x)%N -> exists d r, pretty_N_go x s = String (pretty_N_char d) r.
Proof.
  revert s. induction (N.lt_wf_0 x) as [x _ IH]; intros s Hx.
  rewrite pretty_N_go_step by done.
  destruct (decide (x `div` 10 = 0)%N) as [->|Hd].
  - by eexists _, _.
  - apply IH; [by apply N.div_lt | by apply N.neq_0_lt_0].
Qed.

Lemma parseInt10_digit d r :
  parseInt10 (String (pretty_N_char d) r) = parse_natural (String (pretty_N_char d) r).
Proof. unfold pretty_N_char. repeat case_match; reflexivity. Qed.

(** Reading back the numeral of [n], whatever follows it that is not a
    digit. *)
Lemma parse_pretty n rest :
  leading_digits rest = EmptyString ->
  parse_natural (pretty n +:+ rest) = Some (Z.of_N n) /\
  parseInt10 (pretty n +:+ rest) = Some (Z.of_N n).
Proof.
  intros Hrest. unfold pretty, pretty_N.
  destruct (decide (n = 0)%N) as [->|Hn].
  - change ("0" +:+ rest) with (String "0" rest).
    unfold parseInt10, parse_natural.
    change (leading_digits (String "0" rest)) with (String "0" (leading_digits rest)).
    by rewrite Hrest.
  - assert (Hpos : (0 < n)%N) by lia.
    rewrite !pretty_go_append. change (EmptyString +:+ rest) with rest.
    assert (Hnat : parse_natural (pretty_N_go n rest) = Some (Z.of_N n)).
    { unfold parse_natural. rewrite leading_digits_pretty_go, Hrest.
      destruct (pretty_go_head n EmptyString Hpos) as (d & r & Hhead).
      rewrite Hhead. rewrite <- Hhead. by rewrite digits_pretty_go. }
    split; [done|].
    destruct (pretty_go_head n rest Hpos) as (d & r & Hhead).
    rewrite Hhead in Hnat |- *. by rewrite parseInt10_digit.
Qed.

Lemma append_empty s : s +:+ EmptyString = s.
Proof.
  induction s as [|a s IH]; [done|].
  change (String a (s +:+ EmptyString) = String a s). by rewrite IH.
Qed.

(** [parseInt] of a number that prints without an exponent: an integer comes
    back as it is, a number with a fraction is cut toward zero, [NaN] and the
    infinities give [NaN]. *)
Lemma parseInt_number n :
  fixed_notation n = true -> parseInt (VNum n) = integer_part n.
Proof.
  destruct n as [z|neg whole frac| |neg]; simpl; intros Hn; [| |done|by destruct neg].
  - unfold parseInt. cbn [to_string number_to_string]. rewrite Hn.
    destruct z as [|p|p].
    + done.
    + change (pretty (Z.pos p)) with (pretty (N.pos p)).
      rewrite <- (append_empty (pretty (N.pos p))).
      by apply parse_pretty.
    + change (pretty (Z.neg p)) with (String "-" (pretty (N.pos p))).
      change (parseInt10 (String "-" (pretty (N.pos p))))
        with (Z.opp <$> parse_natural (pretty (N.pos p))).
      rewrite <- (append_empty (pretty (N.pos p))).
      by rewrite (proj1 (parse_pretty (N.pos p) EmptyString eq_refl)).
  - apply andb_true_iff in Hn as [_ Hn].
    unfold parseInt. cbn [to_string number_to_string]. rewrite Hn.
    assert (Hrest : leading_digits (String "." frac) = EmptyString) by done.
    destruct (parse_pretty whole (String "." frac) Hrest) as [Hnat Hint].
    destruct neg.
    + change (parseInt10 ("-" +:+ pretty whole +:+ "." +:+ frac))
        with (Z.opp <$> parse_natural (pretty whole +:+ String "." frac)).
      by rewrite Hnat.
    + change (parseInt10 (EmptyString +:+ pretty whole +:+ "." +:+ frac))
        with (parseInt10 (pretty whole +:+ String "." frac)).
      by rewrite Hint.
Qed.

(** A number below 10^-6 in magnitude prints in exponent notation, and
    [parseInt] reads its first digit only; so does a number from 10^21 on. *)
Example parseInt_exponent :
  to_string (VNum (Dec true 0 "0000005")) = "-5e-7"
  /\ parseInt (VNum (Dec true 0 "0000005")) = Some (-5)
  /\ to_string (VNum (Int (10 ^ 21))) = "1e+21"
  /\ parseInt (VNum (Int (10 ^ 21))) = Some 1
  /\ to_string (VNum (Int (-123 * 10 ^ 21))) = "-1.23e+23"
  /\ to_string (VNum (Dec false 0 "00000012")) = "1.2e-7"
  /\ to_string (VNum (Dec false 0 "000001")) = "0.000001".
Proof. by vm_compute. Qed.

(** ** The constructor on every configuration *)

Lemma check_cursors_all i cursors :
  Forall (fun cursor => is_cursor cursor = inr true) cursors ->
  check_cursors i cursors = inr tt.
Proof.
  revert i. induction cursors as [|cur rest IH]; intros i Hall; simpl; [done|].
  apply list.Forall_cons in Hall as [-> Hrest]. simpl. by apply IH.
Qed.


Lemma assign_record src names target :
  is_record src = true -> exists lo, assign target src names = inr lo.
Proof.
  intros Hr. revert target. induction names as [|n names IH]; intros target; simpl.
  - by eexists.
  - destruct (get_record src n Hr) as [v ->]. simpl. apply IH.
Qed.


(** [{...target, ...src}] for an object [src], property by property. *)
Lemma assign_get cl props names target lo :
  assign target (VObj cl props) names = inr lo ->
  forall k, obj_get lo k =
            if decide (k ∈ names) then Some (default VUndefined (obj_get props k))
            else obj_get target k.
Proof.
  revert target. induction names as [|n names IH]; intros target H k; simpl in H.
  - injection H as <-. rewrite decide_False; [done | apply not_elem_of_nil].
  - rewrite (IH _ H k).
    destruct (decide (k ∈ names)) as [Hin|Hin].
    + rewrite decide_True; [done | by apply list_elem_of_further].
    + rewrite obj_get_set. destruct (decide (k = n)) as [->|Hne].
      * rewrite decide_True; [done | apply list_elem_of_here].
      * rewrite decide_False; [done|]. by intros [?|?]%elem_of_cons.
Qed.

(** The constructor's checks pass exactly on the valid configurations. *)
Lemma check_outcome sub collection pipeline options o :
  check sub collection pipeline options = inr o
  <-> exists lo, valid sub collection pipeline options lo /\ o = options_of lo.
Proof.
  split.
  - intros H. unfold check in H.
    destruct (truthy sub) eqn:Hsub; simpl in H.
    2:{ repeat (rewrite Hsub in H; simpl in H). done. }
    assert (Hrs : is_record sub = true) by (by destruct sub).
    destruct (get_record sub "ready" Hrs) as [ready Hready].
    destruct (get_record sub "stop" Hrs) as [stop Hstop].
    rewrite Hready in H. simpl in H. destruct (truthy ready) eqn:Htr; simpl in H.
    2:{ repeat (rewrite Htr in H; simpl in H). done. }
    rewrite Hstop in H. simpl in H. destruct (truthy stop) eqn:Hts; simpl in H; [|done].
    destruct (instanceof_Collection collection) eqn:Hc; simpl in H; [|done].
    destruct (instanceof_Array pipeline) eqn:Hp; simpl in H; [|done].
    destruct (instanceof_Object options) eqn:Ho; simpl in H; [|done].
    destruct (merge collection options) as [e|lo] eqn:Hmerge; simpl in H; [done|].
    destruct (decide (typeof (field lo "noAutomaticObserver") = TBoolean)) as [H1|H1];
      [rewrite (bool_decide_eq_true_2 _ H1) in H
      |rewrite (bool_decide_eq_false_2 _ H1) in H; done].
    destruct (decide (typeof (field lo "observeSelector") = TObject)) as [H2|H2];
      [rewrite (bool_decide_eq_true_2 _ H2) in H
      |rewrite (bool_decide_eq_false_2 _ H2) in H; done].
    destruct (decide (typeof (field lo "observeOptions") = TObject)) as [H3|H3];
      [rewrite (bool_decide_eq_true_2 _ H3) in H
      |rewrite (bool_decide_eq_false_2 _ H3) in H; done].
    simpl in H.
    destruct (instanceof_Array (field lo "observers")) eqn:H4; simpl in H; [|done].
    destruct (check_cursors 0 (as_items (field lo "observers"))) as [e|[]] eqn:H5;
      simpl in H; [done|].
    destruct (decide (typeof (field lo "debounceCount") = TNumber)) as [H6|H6];
      [rewrite (bool_decide_eq_true_2 _ H6) in H
      |rewrite (bool_decide_eq_false_2 _ H6) in H; done].
    simpl in H.
    destruct (lt0 (parseInt (field lo "debounceCount"))) eqn:H7; [done|].
    destruct (decide (typeof (field lo "debounceDelay") = TNumber)) as [H8|H8];
      [rewrite (bool_decide_eq_true_2 _ H8) in H
      |rewrite (bool_decide_eq_false_2 _ H8) in H; done].
    simpl in H.
    destruct (lt0 (parseInt (field lo "debounceDelay"))) eqn:H9; [done|].
    destruct (decide (typeof (field lo "clientCollection") = TString)) as [H10|H10];
      [rewrite (bool_decide_eq_true_2 _ H10) in H
      |rewrite (bool_decide_eq_false_2 _ H10) in H; done].
    simpl in H.
    assert (H11 : field lo "observeSelector" ≠ VNull).
    { intros E. rewrite E in H. done. }
    destruct (object_keys (field lo "observeSelector")) as [e|ks1]; simpl in H; [done|].
    assert (H12 : field lo "observeOptions" ≠ VNull).
    { intros E. rewrite E in H. done. }
    destruct (object_keys (field lo "observeOptions")) as [e|ks2]; simpl in H; [done|].
    injection H as <-. exists lo. split; [|done].
    unfold valid, has. rewrite Hready, Hstop.
    split_and!; try done.
    apply list.Forall_forall. intros cursor Hin. by eapply check_cursors_ok.
  - intros (lo & Hv & ->).
    destruct Hv as (Hsub & Hready & Hstop & Hc & Hp & Ho & Hmerge & H1 & H2 & H3
                    & H4 & H5 & H6 & H7 & H8 & H9 & H10 & H11 & H12).
    unfold has in Hready, Hstop.
    destruct (get sub "ready") as [e|ready] eqn:Eready; [done|].
    destruct (get sub "stop") as [e|stop] eqn:Estop; [done|].
    unfold check. rewrite Hsub, Eready. simpl. rewrite Hready, Estop. simpl.
    rewrite Hstop, Hc, Hp, Ho, Hmerge. simpl.
    rewrite (bool_decide_eq_true_2 _ H1), (bool_decide_eq_true_2 _ H2),
      (bool_decide_eq_true_2 _ H3), H4. simpl.
    rewrite (check_cursors_all _ _ H5). simpl.
    rewrite (bool_decide_eq_true_2 _ H6), H7, (bool_decide_eq_true_2 _ H8), H9,
      (bool_decide_eq_true_2 _ H10). simpl.
    assert (exists ks, object_keys (field lo "observeSelector") = inr ks) as [ks1 ->].
    { destruct (field lo "observeSelector"); try done; by eexists. }
    assert (exists ks, object_keys (field lo "observeOptions") = inr ks) as [ks2 ->].
    { destruct (field lo "observeOptions"); try done; by eexists. }
    done.
Qed.


Lemma automatic_keeps collection lo :
  aggregationOptions (automatic collection lo) = aggregationOptions lo
  /\ debounceCount (automatic collection lo) = debounceCount lo
  /\ debounceDelay (automatic collection lo) = debounceDelay lo.
Proof. unfold automatic. by destruct (noAutomaticObserver lo). Qed.





(** An [observeSelector] of [null] passes the check for an object and fails
    in [Object.keys]. *)
Example null_selector_untagged :
  ReactiveAggregate a_sub posts VUndefined (option_ "observeSelector" VNull) []
    = inl (TypeError "Cannot convert undefined or null to object").
Proof. reflexivity. Qed.

(** X15.  The options the constructor works with are the caller's options
    over the defaults, property by property: a property the caller's object
    has takes the caller's value, also when that value is [undefined]; any
    other takes its default, which for [clientCollection] is the name of the
    collection. *)
Theorem options_override_defaults collection cl props name :
  get collection "_name" = inr name ->
  exists lo,
    merge collection (VObj cl props) = inr lo
    /\ forall k, field lo k =
                 match obj_get props k with
                 | Some v => v
                 | None => field (defaults name) k
                 end.
Proof.
  intros Hname. unfold merge. rewrite Hname. simpl.
  destruct (assign_record (VObj cl props) (own_keys props) (defaults name) eq_refl)
    as [lo Hlo].
  exists lo. split; [done|]. intros k. unfold field.
  rewrite (assign_get _ _ _ _ _ Hlo k).
  destruct (obj_get props k) as [v|] eqn:Hk.
  - rewrite decide_True; [done|]. apply own_keys_elem. by eapply obj_get_Some_elem.
  - rewrite decide_False; [done|]. intros Hin%own_keys_elem.
    by apply obj_get_None in Hk.
Qed.

Lemma options_override_defaults_witness :
  get posts "_name" = inr (VStr "posts") /\
  exists lo,
    merge posts (VObj Object_ [("debounceCount", VNum (Int 2));
                               ("docsPropName", VUndefined)]) = inr lo
    /\ field lo "debounceCount" = VNum (Int 2)
    /\ field lo "debounceDelay" = VNum (Int 0)
    /\ field lo "clientCollection" = VStr "posts".
Proof.
  split; [reflexivity|].
  destruct (options_override_defaults posts Object_
              [("debounceCount", VNum (Int 2)); ("docsPropName", VUndefined)]
              (VStr "posts") eq_refl) as (lo & Hm & Hf).
  exists lo. split; [exact Hm|].
  split; [exact (Hf "debounceCount")|].
  split; [exact (Hf "debounceDelay") | exact (Hf "clientCollection")].
Defined.

(** X16.  Of a [debounceCount] and a [debounceDelay] that are numbers (as
    [String] prints them without an exponent) the constructor keeps the
    integer part: an integer as it is, a number with a fraction cut toward
    zero, [NaN] and the infinities as [NaN].  What it has accepted is never
    negative; a number between -1 and 0 is accepted as 0, and [NaN] and the
    infinities are accepted. *)
Theorem thresholds_cut_to_integers sub0 collection0 pipeline0 options0 initial
    c s l lo n d :
  ReactiveAggregate sub0 collection0 pipeline0 options0 initial = inr (c, s, l) ->
  merge (or_default VNull collection0) (or_default (VObj Object_ []) options0)
    = inr lo ->
  field lo "debounceCount" = VNum n -> field lo "debounceDelay" = VNum d ->
  fixed_notation n = true -> fixed_notation d = true ->
  debounceCount (opts c) = integer_part n
  /\ debounceDelay (opts c) = integer_part d
  /\ lt0 (integer_part n) = false /\ lt0 (integer_part d) = false.
Proof.
  intros H Hm Hn Hd Hfn Hfd. unfold ReactiveAggregate in H.
  destruct (check _ _ _ _) as [e|o] eqn:Hcheck; simpl in H; [done|].
  apply check_outcome in Hcheck as (lo' & Hv & ->).
  destruct (wire _ _ _) as [[s' l'] [e|[]]]; [done|]. injection H as <- <- <-. simpl.
  destruct Hv as (_ & _ & _ & _ & _ & _ & Hm' & _ & _ & _ & _ & _ & _ & Hcn & _ & Hdn & _).
  assert (lo' = lo) as -> by congruence.
  destruct (automatic_keeps (or_default VNull collection0) (options_of lo))
    as (_ & -> & ->).
  simpl. rewrite Hn, Hd in *.
  rewrite !parseInt_number in * by done. done.
Qed.

Lemma thresholds_cut_to_integers_witness :
  let options :=
    VObj Object_ [("debounceCount", VNum (Dec true 0 "5"));
                  ("debounceDelay", VNum (Infinity false))] in
  exists c s l,
    ReactiveAggregate a_sub posts VUndefined options [] = inr (c, s, l)
    /\ debounceCount (opts c) = Some 0 /\ debounceDelay (opts c) = None.
Proof.
  intros options.
  destruct (ReactiveAggregate a_sub posts VUndefined options [])
    as [e|[[c s] l]] eqn:Hr; [by vm_compute in Hr|].
  destruct (merge posts options) as [e|lo] eqn:Hm; [by vm_compute in Hm|].
  assert (Hn : field lo "debounceCount" = VNum (Dec true 0 "5")).
  { vm_compute in Hm. by injection Hm as <-. }
  assert (Hd : field lo "debounceDelay" = VNum (Infinity false)).
  { vm_compute in Hm. by injection Hm as <-. }
  destruct (thresholds_cut_to_integers a_sub posts VUndefined options [] c s l lo
              (Dec true 0 "5") (Infinity false) Hr Hm Hn Hd eq_refl eq_refl)
    as (Hc & Hdl & _).
  by exists c, s, l.
Defined.

Lemma set_currentDebounceCount_twice n n' s :
  set_currentDebounceCount n' (set_currentDebounceCount n s)
  = set_currentDebounceCount n' s.
Proof. by destruct s. Qed.

Lemma set_currentDebounceCount_same s :
  set_currentDebounceCount (currentDebounceCount s) s = s.
Proof. by destruct s. Qed.

(** X17.  With a [debounceCount] of [NaN], which is what the constructor
    makes of [NaN] and of the infinities, change signals never lead to a
    recompute: whatever their number, they request no aggregation and arm no
    timeout, and change nothing but the count of signals. *)
Theorem nan_threshold_ignores_signals c s ks :
  debounceCount (opts c) = None ->
  exists n, run c s (Signal <$> ks) = (set_currentDebounceCount n s, []).
Proof.
  intros Hc. revert s. induction ks as [|k ks IH]; intros s.
  - exists (currentDebounceCount s). by rewrite set_currentDebounceCount_same.
  - assert (Hstep : exists n, step c s (Signal k) = (set_currentDebounceCount n s, [])).
    { simpl. destruct (bool_decide _).
      - destruct s as [ini o i n t a f p hs]. run_monad. rewrite Hc. simpl.
        destruct ini; simpl.
        + by exists n.
        + rewrite andb_false_r. simpl. by exists (incr n).
      - exists (currentDebounceCount s). by rewrite set_currentDebounceCount_same. }
    destruct Hstep as [n Hstep]. destruct (IH (set_currentDebounceCount n s)) as [n' Hrun].
    exists n'. rewrite fmap_cons. cbn [run]. rewrite Hstep, Hrun.
    by rewrite set_currentDebounceCount_twice.
Qed.

Lemma nan_threshold_ignores_signals_witness :
  let c := construct (option_ "debounceCount" (VNum (Infinity false))) in
  debounceCount (opts c) = None /\
  exists n, run c (started 1) (Signal <$> [0; 0; 0]%nat)
            = (set_currentDebounceCount n (started 1), []).
Proof.
  intros c. split; [reflexivity|].
  exact (nan_threshold_ignores_signals c (started 1) [0; 0; 0]%nat eq_refl).
Defined.
